(** * Wyvern: a shallow embedding of the client library's pure and
      stateful cores

    The development follows the layout of the Python package:

    - [Tasks]   : [wyvern/extensions/tasks.py]  (repeating timers)
    - [Utils]   : [wyvern/utils.py]             (timestamp markup)
    - [Modals]  : [wyvern/components/modals.py] (text-input payloads)
    - [Clients] : [wyvern/clients.py]           (gateway and commands clients)

    Mutable Python objects are modelled by explicit state passing through a
    small state-and-exception monad; a raised exception leaves the state as
    it was at the point of the [raise]. *)

From Stdlib Require Import ZArith List Bool String Ascii Decimal DecimalString Lia.
From stdpp Require Import base option list gmap strings fin_maps.

#[local] Open Scope Z_scope.

(** ** Python values and exceptions shared by the modules *)

(** The Python objects that travel through the modelled code as opaque
    values (callback arguments, JSON payload entries). *)
Inductive pyobj : Type :=
| PyNone
| PyBool (b : bool)
| PyInt (n : Z)
| PyStr (s : string).

(** A reference to a Python function or coroutine function object. *)
Definition callback : Type := nat.

(** The exception classes the modelled code raises or catches. *)
Inductive Exception : Type :=
| BaseError (msg : string)              (* [Exception(msg)] *)
| ValueError (msg : string)
| UnboundLocalError (var : string)
| NameError (name : string)
| CommandAlreadyExists (msg : string)   (* [exceptions.CommandAlreadyExists] *)
| Unauthorized (msg : string)           (* [exceptions.Unauthorized] *)
| OtherError (cls msg : string).        (* any other exception class *)

(** [str(n)] for a Python [int]: decimal digits, with a leading minus sign
    for negative numbers. *)
Definition str_int (n : Z) : string := NilZero.string_of_int (Z.to_int n).

(** ** State and exception monad *)

Definition M (St A : Type) : Type := St -> (Exception + A) * St.

Definition ret {St A} (a : A) : M St A := fun st => (inr a, st).

Definition bind {St A B} (c : M St A) (k : A -> M St B) : M St B :=
  fun st =>
    match c st with
    | (inr a, st') => k a st'
    | (inl e, st') => (inl e, st')
    end.

Notation "'let*' x ':=' c 'in' k" := (bind c (fun x => k))
  (at level 10, x name, c at level 100, k at level 200, only parsing).
Notation "c '>>' k" := (bind c (fun _ => k))
  (at level 90, right associativity, only parsing).

Definition raise {St A} (e : Exception) : M St A := fun st => (inl e, st).
Definition gets {St A} (f : St -> A) : M St A := fun st => (inr (f st), st).
Definition modify {St} (f : St -> St) : M St unit := fun st => (inr tt, f st).

(** ** wyvern/extensions/tasks.py *)
Module Tasks.

(** [class Task]: the attrs fields, [delay] in seconds.  Delays are taken
    in whole seconds ([Z]); Python also accepts floats here. *)
Record Task : Type := mkTask {
  trigger : callback;
  delay : Z;
  wait_until_complete : bool;
  is_running : bool
}.

Definition set_delay (d : Z) (t : Task) : Task :=
  mkTask (trigger t) d (wait_until_complete t) (is_running t).
Definition set_is_running (b : bool) (t : Task) : Task :=
  mkTask (trigger t) (delay t) (wait_until_complete t) b.

(** The two states of the spec's state machine, read off the flag. *)
Inductive task_state : Type := Idle | Running.
Definition state_of (t : Task) : task_state :=
  if is_running t then Running else Idle.

(** *** The event loop seen from one task

    [_runner] is a coroutine: it runs atomically between suspension
    points.  Its suspension points are [await self.trigger(...)]
    (wait mode only) and [await asyncio.sleep(self.delay)].  The trigger
    is taken to complete; one that completes without suspending is the
    schedule in which the two resumptions follow each other directly. *)
Inductive phase : Type :=
| Created                  (* scheduled by [create_task], not started yet *)
| AwaitingTrigger          (* suspended in [await self.trigger(...)] *)
| Sleeping (d : Z)         (* suspended in [await asyncio.sleep(d)] *)
| Finished.                (* the [while] loop was left *)

(** A [_runner] coroutine object with the [args] and [kwargs] it was
    created with. *)
Record coroutine : Type := mkCoroutine {
  co_args : list pyobj;
  co_kwargs : list (string * pyobj);
  co_phase : phase
}.

Definition set_phase (p : phase) (r : coroutine) : coroutine :=
  mkCoroutine (co_args r) (co_kwargs r) p.

(** One call of [self.trigger], as the callback sees it: its positional
    and its keyword arguments. *)
Record invocation : Type := mkInvocation {
  inv_args : list pyobj;
  inv_kwargs : list (string * pyobj);
  inv_awaited : bool   (* [await]ed in place, or handed to [create_task] *)
}.

Record loop_state : Type := mkLoop {
  the_task : Task;
  runners : list coroutine;      (* the [_runner] coroutines on the loop *)
  invoked : list invocation      (* calls of the trigger so far, oldest first *)
}.

Definition with_task (f : Task -> Task) (w : loop_state) : loop_state :=
  mkLoop (f (the_task w)) (runners w) (invoked w).
Definition create_task (r : coroutine) (w : loop_state) : loop_state :=
  mkLoop (the_task w) (runners w ++ [r]) (invoked w).

Definition init_loop (t : Task) : loop_state := mkLoop t [] [].

(** [Task.update_delay] *)
Definition update_delay (d : Z) : M loop_state unit :=
  modify (with_task (set_delay d)).

(** A single-star unpacking of [kwargs] in a call: iterating a dict
    yields its keys. *)
Definition star (kwargs : list (string * pyobj)) : list pyobj :=
  map (fun kv => PyStr (fst kv)) kwargs.

(** [Task.run]: flips the flag or raises, then schedules
    [self._runner] with [args] followed by the unpacked [kwargs] as
    positional arguments and no keyword argument. *)
Definition run (args : list pyobj) (kwargs : list (string * pyobj))
  : M loop_state unit :=
  let* running := gets (fun w => is_running (the_task w)) in
  (if running
   then raise (BaseError "The task is already running.")
   else modify (with_task (set_is_running true))) >>
  modify (create_task (mkCoroutine (args ++ star kwargs) [] Created)).

(** [Task.stop] *)
Definition stop : M loop_state unit :=
  modify (with_task (set_is_running false)).

(** The head of the [while self.is_running is True] loop, up to the next
    suspension point: the flag is tested and, when set, the trigger is
    called with the coroutine's own [args] and [kwargs]. *)
Definition loop_head (t : Task) (r : coroutine)
  : coroutine * list invocation :=
  if is_running t then
    if wait_until_complete t
    then (set_phase AwaitingTrigger r,
          [mkInvocation (co_args r) (co_kwargs r) true])
    else (set_phase (Sleeping (delay t)) r,
          [mkInvocation (co_args r) (co_kwargs r) false])
  else (set_phase Finished r, []).

(** [Task._runner], one resumption: from where the coroutine is suspended
    to its next suspension point. *)
Definition _runner (t : Task) (r : coroutine) : coroutine * list invocation :=
  match co_phase r with
  | Created => loop_head t r
  | Sleeping _ => loop_head t r
  | AwaitingTrigger => (set_phase (Sleeping (delay t)) r, [])
  | Finished => (r, [])
  end.

(** The event loop resumes the [i]-th runner (nothing happens when there
    is no such coroutine). *)
Definition resume (i : nat) : M loop_state unit :=
  modify (fun w =>
    match runners w !! i with
    | Some r =>
        let '(r', calls) := _runner (the_task w) r in
        mkLoop (the_task w) (<[i := r']> (runners w)) (invoked w ++ calls)
    | None => w
    end).

(** What can happen to a task: calls of its methods by other code, and
    resumptions of its runners by the event loop. *)
Inductive event : Type :=
| Run (args : list pyobj) (kwargs : list (string * pyobj))
| Stop
| UpdateDelay (d : Z)
| Resume (i : nat).

Definition step (e : event) : M loop_state unit :=
  match e with
  | Run args kwargs => run args kwargs
  | Stop => stop
  | UpdateDelay d => update_delay d
  | Resume i => resume i
  end.

(** A schedule is played until its end; a raised exception is reported
    to the caller of the method and the schedule goes on. *)
Fixpoint play (es : list event) (w : loop_state) : loop_state :=
  match es with
  | [] => w
  | e :: es' => play es' (snd (step e w))
  end.

(** *** The decorator factory [task] *)

Definition is_not_None {A} (o : option A) : bool :=
  match o with Some _ => true | None => false end.

(** Python truth value of a [float | None]. *)
Definition truthy (o : option Z) : bool :=
  match o with Some z => negb (z =? 0) | None => false end.

(** The local variable [delay] of [inner], bound by the [if]/[elif]
    chain or left unbound. *)
Definition resolve_delay (s m h : option Z) : option Z :=
  if truthy s then s
  else if truthy m then (fun x => x * 60) <$> m
  else if truthy h then (fun x => x * 60 * 60) <$> h
  else None.

(** The number of delay fields that are not [None]. *)
Definition supplied (s m h : option Z) : nat :=
  length (List.filter is_not_None [s; m; h]).

(** [task(s, m, h, wait_until_complete)(trigger)] *)
Definition task (s m h : option Z) (wait : bool) (trig : callback)
  : Exception + Task :=
  let delays := supplied s m h in
  if (1 <? delays)%nat || (delays =? 0)%nat
  then inl (ValueError "Only one delay field can be used for the decorator.")
  else match resolve_delay s m h with
       | Some d => inr (mkTask trig d wait false)
       | None => inl (UnboundLocalError "delay")
       end.

(** *** Notions used to state the properties *)

(** Arguments that stem from some [Run] of the schedule [S]: no keyword
    argument, and the positional ones are [args] followed by the keys of
    [kwargs]. *)
Definition from_run (S : list event) (a : list pyobj)
           (k : list (string * pyobj)) : Prop :=
  k = [] /\ exists args kwargs, In (Run args kwargs) S /\ a = args ++ star kwargs.

Definition loop_from_run (S : list event) (w : loop_state) : Prop :=
  Forall (fun r => from_run S (co_args r) (co_kwargs r)) (runners w)
  /\ Forall (fun c => from_run S (inv_args c) (inv_kwargs c)) (invoked w).

Definition is_Run (e : event) : bool :=
  match e with Run _ _ => true | _ => false end.

(** The reading of the spec: the runner that sleeps when [stop] is called
    calls the trigger once more when its sleep is over. *)
Definition fires_once_more_after_stop (w : loop_state) (i : nat) : Prop :=
  exists c, invoked (play [Stop; Resume i] w) = invoked w ++ [c].

(** A started task (default wait mode, delay 5) whose runner has called
    the trigger once and is now asleep. *)
Definition sleeping_task : loop_state :=
  play [Run [] []; Resume 0; Resume 0] (init_loop (mkTask 0%nat 5 true false)).

Definition is_Resume (e : event) : bool :=
  match e with Resume _ => true | _ => false end.

(** The number of resumptions in a schedule. *)
Definition resumptions (es : list event) : nat :=
  length (List.filter is_Resume es).

(** The resumptions that take runner [i] through one turn of its loop,
    from the end of a sleep to the next sleep: one in fire-and-continue
    mode, two when the trigger is awaited. *)
Definition one_turn (t : Task) (i : nat) : list event :=
  if wait_until_complete t then [Resume i; Resume i] else [Resume i].

(** A runner about to test the flag: it has not started yet, or it is
    asleep. *)
Definition woken (r : coroutine) : Prop :=
  co_phase r = Created \/ exists d, co_phase r = Sleeping d.

End Tasks.

(** ** wyvern/utils.py *)
Module Utils.

(** [datetime.timedelta]: a duration, held in microseconds. *)
Record timedelta : Type := mkTimedelta { td_microseconds : Z }.

(** [datetime.datetime]: the reading of a wall clock, in microseconds
    since 1970-01-01T00:00:00 on that clock; an aware value carries the
    UTC offset of its zone, a naive one carries no zone. *)
Inductive datetime : Type :=
| Naive (wall : Z)
| Aware (wall : Z) (utcoffset : Z).

(** The machine the code runs on: its clock (the current instant, in
    microseconds since the epoch) and its local time zone (the UTC
    offset, in microseconds, in force at a local wall-clock reading). *)
Record host : Type := mkHost {
  clock : Z;
  local_utcoffset : Z -> Z
}.

(** [datetime.datetime.utcnow()]: the current UTC wall-clock reading, as
    a naive value. *)
Definition utcnow (h : host) : datetime := Naive (clock h).

(** [datetime + timedelta], for sums that stay within the years 1 to
    9999; outside them Python raises [OverflowError], which this function
    does not show. *)
Definition datetime_add (dt : datetime) (td : timedelta) : datetime :=
  match dt with
  | Naive w => Naive (w + td_microseconds td)
  | Aware w o => Aware (w + td_microseconds td) o
  end.

(** [datetime.timestamp()], in microseconds since the epoch: a naive
    value is read as local time of the host, an aware one by its own
    offset. *)
Definition timestamp (h : host) (dt : datetime) : Z :=
  match dt with
  | Naive w => w - local_utcoffset h w
  | Aware w o => w - o
  end.

(** [int(dt.timestamp())]: [int] truncates the seconds toward zero.  The
    seconds are computed exactly here; Python rounds them to a float
    first, which gives the same second as long as the instant is less
    than 2^34 seconds from the epoch. *)
Definition int_timestamp (h : host) (dt : datetime) : Z :=
  Z.quot (timestamp h dt) 1000000.

(** The default of the keyword argument [style]. *)
Definition default_style : string := "t".

(** [create_timestamp(dt, style=style)] *)
Definition create_timestamp (h : host) (dt : datetime + timedelta)
           (style : string) : string :=
  let dt' := match dt with
             | inr td => datetime_add (utcnow h) td
             | inl d => d
             end in
  "<t:" +:+ str_int (int_timestamp h dt') +:+ ":" +:+ style +:+ ">".

(** The epoch second of the current instant. *)
Definition current_epoch_second (h : host) : Z := Z.quot (clock h) 1000000.

(** A host whose local zone is one hour east of UTC, at epoch second
    1700000000. *)
Definition host_utc_plus_1 : host :=
  mkHost (1700000000 * 1000000) (fun _ => 3600 * 1000000).

(** The instants, in microseconds since the epoch, that lie less than
    2^33 seconds from it (the years 1698 to 2242).  They are well inside
    the years 1 to 9999 that [datetime] can hold, so that no sum of a
    [datetime] and a [timedelta] landing there raises [OverflowError];
    and the float that [timestamp()] returns for them is off the exact
    seconds by less than half a microsecond, so that [int] of it is the
    exact truncation. *)
Definition within_exact_range (us : Z) : Prop :=
  Z.abs us < 8589934592 * 1000000.

(** A host whose local zone stays [k] whole seconds east of UTC. *)
Definition host_at_offset (now k : Z) : host :=
  mkHost now (fun _ => k * 1000000).

(** *** [Hook] and [as_hook] *)

(** [class Hook]: the callback and the name. *)
Record Hook : Type := mkHook {
  hook_callback : callback;
  hook_name : string
}.

(** Python truth value of a [str | None]: [None] and the empty string are
    false. *)
Definition truthy_str (o : option string) : bool :=
  match o with
  | Some s => negb (String.eqb s "")
  | None => false
  end.

(** [as_hook(name)(callback)]; [dunder_name] gives the [__name__] of a
    function object. *)
Definition as_hook (dunder_name : callback -> string) (name : option string)
           (cb : callback) : Hook :=
  mkHook cb (if truthy_str name then default ""%string name else dunder_name cb).

(** *** [Eval.add_returns] *)

(** Expressions are kept as source text; [add_returns] never looks into
    them. *)
Definition expr : Type := string.

(** The statements of [ast], as far as [add_returns] tells them apart:
    [ast.Expr], [ast.Return], [ast.If], [ast.With], and every other class
    of statement ([ast.AsyncWith], loops, assignments, ...). *)
#[local] Set Warnings "-register-all".
Inductive stmt : Type :=
| Expr (value : expr)
| Return (value : expr)
| If (test : expr) (body orelse : list stmt)
| With (items : list expr) (body : list stmt)
| Other (src : string).

Definition IndexError : Exception :=
  OtherError "IndexError" "list index out of range".

(** [Eval.add_returns(body)]: the statement list after the in-place
    changes, and the exception raised, if any.  [on_last s] is what the
    three tests do to the last statement [s] of a body; [body[-1]] of an
    empty list raises [IndexError]. *)
Fixpoint on_last (s : stmt) : option Exception * stmt :=
  let add_returns :=
    fix add_returns (body : list stmt) : option Exception * list stmt :=
      match body with
      | [] => (Some IndexError, [])
      | s0 :: rest =>
          match rest with
          | [] => let '(e, s0') := on_last s0 in (e, [s0'])
          | _ :: _ => let '(e, rest') := add_returns rest in (e, s0 :: rest')
          end
      end in
  match s with
  | Expr value => (None, Return value)
  | If test body orelse =>
      match add_returns body with
      | (Some e, body') => (Some e, If test body' orelse)
      | (None, body') =>
          let '(e, orelse') := add_returns orelse in
          (e, If test body' orelse')
      end
  | With items body =>
      let '(e, body') := add_returns body in (e, With items body')
  | Return _ | Other _ => (None, s)
  end.

Fixpoint add_returns (body : list stmt) : option Exception * list stmt :=
  match body with
  | [] => (Some IndexError, [])
  | s0 :: rest =>
      match rest with
      | [] => let '(e, s0') := on_last s0 in (e, [s0'])
      | _ :: _ => let '(e, rest') := add_returns rest in (e, s0 :: rest')
      end
  end.

(** A body whose value-giving positions can all be reached: it is not
    empty, and the branches of a final [if] and the block of a final
    [with] are such bodies again. *)
Fixpoint reachable_last (s : stmt) : bool :=
  let reachable :=
    fix reachable (body : list stmt) : bool :=
      match body with
      | [] => false
      | s0 :: rest =>
          match rest with
          | [] => reachable_last s0
          | _ :: _ => reachable rest
          end
      end in
  match s with
  | If _ body orelse => reachable body && reachable orelse
  | With _ body => reachable body
  | Expr _ | Return _ | Other _ => true
  end.

Fixpoint reachable (body : list stmt) : bool :=
  match body with
  | [] => false
  | s0 :: rest =>
      match rest with
      | [] => reachable_last s0
      | _ :: _ => reachable rest
      end
  end.

(** A body that ends in no bare expression: its last statement is no
    [ast.Expr], and neither is the last one of the branches of a final
    [if] or of the block of a final [with]. *)
Fixpoint returning_last (s : stmt) : bool :=
  let returning :=
    fix returning (body : list stmt) : bool :=
      match body with
      | [] => false
      | s0 :: rest =>
          match rest with
          | [] => returning_last s0
          | _ :: _ => returning rest
          end
      end in
  match s with
  | Expr _ => false
  | If _ body orelse => returning body && returning orelse
  | With _ body => returning body
  | Return _ | Other _ => true
  end.

Fixpoint returning (body : list stmt) : bool :=
  match body with
  | [] => false
  | s0 :: rest =>
      match rest with
      | [] => returning_last s0
      | _ :: _ => returning rest
      end
  end.

(** Induction on statements, with the statements of nested blocks. *)
Section StmtInduction.

Variable P : stmt -> Prop.
Hypothesis HExpr : forall v, P (Expr v).
Hypothesis HReturn : forall v, P (Return v).
Hypothesis HIf : forall t b o, Forall P b -> Forall P o -> P (If t b o).
Hypothesis HWith : forall i b, Forall P b -> P (With i b).
Hypothesis HOther : forall src, P (Other src).

Fixpoint stmt_nested_ind (s : stmt) : P s :=
  let all :=
    fix all (l : list stmt) : Forall P l :=
      match l with
      | [] => List.Forall_nil P
      | x :: l' => @List.Forall_cons _ P x l' (stmt_nested_ind x) (all l')
      end in
  match s with
  | Expr v => HExpr v
  | Return v => HReturn v
  | If t b o => HIf t b o (all b) (all o)
  | With i b => HWith i b (all b)
  | Other src => HOther src
  end.

End StmtInduction.

(** What [add_returns] raises, read off the shape of the body. *)
Definition raises_iff_unreachable_last (s : stmt) : Prop :=
  fst (on_last s) = if reachable_last s then None else Some IndexError.

Definition raises_iff_unreachable (body : list stmt) : Prop :=
  fst (add_returns body) = if reachable body then None else Some IndexError.

(** A body with a trailing bare expression inside the [with] block of a
    final [if]/[else]. *)
Definition nested_body : list stmt :=
  [ Other "x = 1";
    If "x" [With ["lock"] [Other "y = 2"; Expr "y"]] [Expr "0"] ].

End Utils.

(** ** wyvern/components/modals.py *)
Module Modals.

(** [class TextInputStyle(enum.IntFlag)]: a member is held by its integer
    value, [int(style)]. *)
Record TextInputStyle : Type := mkStyle { style_value : Z }.
Definition SHORT : TextInputStyle := mkStyle 1.
Definition PARAGRAPH : TextInputStyle := mkStyle 2.

Section WithComponentType.

(** [ComponentType] is declared in [components/base.py]; the code here
    uses its member [TEXT_INPUT] and the conversion [int(...)]. *)
Variable ComponentType : Type.
Variable ComponentType_int : ComponentType -> Z.
Variable TEXT_INPUT : ComponentType.

(** [class TextInput(Component)], the attrs fields in their order. *)
Record TextInput : Type := mkTextInput {
  type : ComponentType;
  custom_id : string;
  label : string;
  style : TextInputStyle;
  min_length : option Z;
  max_length : option Z;
  required : bool;
  default_value : option string;
  placeholder : option string
}.

(** [TextInput(custom_id=..., label=...)]: every other field at its
    default. *)
Definition TextInput_new (cid lab : string) : TextInput :=
  mkTextInput TEXT_INPUT cid lab SHORT None None true None None.

Definition int_or_None (o : option Z) : pyobj :=
  match o with Some n => PyInt n | None => PyNone end.
Definition str_or_None (o : option string) : pyobj :=
  match o with Some s => PyStr s | None => PyNone end.

(** [TextInput.to_payload] *)
Definition to_payload (self : TextInput) : gmap string pyobj :=
  list_to_map
    [ ("type", PyInt (ComponentType_int (type self)));
      ("custom_id", PyStr (custom_id self));
      ("label", PyStr (label self));
      ("style", PyInt (style_value (style self)));
      ("min_length", int_or_None (min_length self));
      ("max_length", int_or_None (max_length self));
      ("required", PyBool (required self));
      ("value", str_or_None (default_value self));
      ("placeholder", str_or_None (placeholder self)) ].

(** The keys of the wire format. *)
Definition payload_keys : gset string :=
  list_to_set
    [ "type"; "custom_id"; "label"; "style"; "min_length"; "max_length";
      "required"; "value"; "placeholder" ]%string.

(** [class Modal].  The [text_inputs] of a modal is a Python list object,
    held by reference; the store maps the list objects to their
    contents. *)
Record Modal : Type := mkModal {
  title : string;
  modal_custom_id : string;
  text_inputs : nat
}.

(** The one list object the class body creates as the default of the
    field [text_inputs]; the generated [__init__] hands this same object
    to every modal built without a [text_inputs] argument. *)
Definition default_text_inputs : nat := 0%nat.

(** [Modal(title=..., custom_id=..., text_inputs=...)], the last argument
    being optional. *)
Definition Modal_new (title cid : string) (text_inputs : option nat) : Modal :=
  mkModal title cid (default default_text_inputs text_inputs).

(** [Modal.add_item]: [self.text_inputs.append(text_input)], in place. *)
Definition add_item (text_input : TextInput) (self : Modal)
           (store : gmap nat (list TextInput)) : gmap nat (list TextInput) :=
  alter (fun l => l ++ [text_input]) (text_inputs self) store.

(** The text inputs a modal shows. *)
Definition items (self : Modal) (store : gmap nat (list TextInput))
  : list TextInput :=
  default [] (store !! text_inputs self).

End WithComponentType.

Arguments type {ComponentType} _.
Arguments custom_id {ComponentType} _.
Arguments label {ComponentType} _.
Arguments style {ComponentType} _.
Arguments min_length {ComponentType} _.
Arguments max_length {ComponentType} _.
Arguments required {ComponentType} _.
Arguments default_value {ComponentType} _.
Arguments placeholder {ComponentType} _.
Arguments TextInput_new {ComponentType} TEXT_INPUT cid lab.
Arguments to_payload {ComponentType} ComponentType_int self.
Arguments add_item {ComponentType} text_input self store.
Arguments items {ComponentType} self store.

(** A component type given by its code, to run examples with. *)
Definition an_input : TextInput Z := TextInput_new 4 "name" "Your name".
Definition another_input : TextInput Z := TextInput_new 4 "age" "Your age".

End Modals.

(** ** wyvern/clients.py *)
Module Clients.

(** *** The objects the clients work with *)

(** Modelled from the spec: [SlashCommand] is declared in
    [commands/slash_commands.py]; a named, described application-command
    definition, keyed by its name. *)
Record SlashCommand : Type := mkSlashCommand {
  command_name : string;
  command_description : string
}.

(** Modelled from the spec: [SlashGroup] is declared in
    [commands/slash_commands.py]; a named, described group of
    commands, keyed by its name. *)
Record SlashGroup : Type := mkSlashGroup {
  group_name : string;
  group_description : string
}.

(** Modelled from the spec: the user record answered by
    [RESTClient.fetch_client_user], with the identifier and the display
    name the client reads. *)
Record User : Type := mkUser { user_id : Z; username : string }.

(** Modelled from the spec: the two lifecycle members of [events.Event]
    the client dispatches. *)
Inductive Event : Type := STARTING | STARTED.

(** The classes [set_prefix] can record in [prefix_type]. *)
Inductive pytype : Type := T_str | T_list | T_tuple | T_set.

#[export] Instance pytype_eq_dec : EqDecision pytype.
Proof. solve_decision. Defined.

(** What a name or an attribute can be bound to: one of these classes,
    or some other object. *)
Inductive global : Type := Gtype (t : pytype) | Gobject.

(** The argument of [set_prefix], by its runtime class. *)
Inductive prefix_arg : Type :=
| Pstr (s : string)
| Plist (l : list string)
| Ptuple (l : list string)
| Pset (l : list string)
| Pfunction (f : callback)
| Pother (o : pyobj).

(** [type(prefix_or_function)], where it is one of the recordable
    classes. *)
Definition type_of (p : prefix_arg) : option pytype :=
  match p with
  | Pstr _ => Some T_str
  | Plist _ => Some T_list
  | Ptuple _ => Some T_tuple
  | Pset _ => Some T_set
  | Pfunction _ | Pother _ => None
  end.

Inductive log_level : Type := DEBUG | INFO.

(** The calls [start] makes on the transports and the event handler. *)
Inductive call : Type :=
| Dispatch (ev : Event)
| GetSocketReady
| FetchClientUser
| ListenGateway
| SessionClose.

(** The attributes of one client instance, with what its transports
    have been asked so far. *)
Record client : Type := mkClient {
  _client_id : Z;
  prefix_type : option global;             (* unset until [set_prefix] *)
  start_activity : option pyobj;           (* [gateway._start_activity] *)
  start_status : option pyobj;             (* [gateway._start_status] *)
  session_closed : bool;                   (* [rest._session] *)
  calls : list call
}.

(** A freshly constructed client. *)
Definition new_client : client := mkClient 0 None None None false [].

(** The process: the class-level registries of [CommandsClient], shared
    by all instances, the instances by identity, and the records of the
    module logger. *)
Record process : Type := mkProcess {
  slash_commands : gmap string SlashCommand;
  slash_groups : gmap string SlashGroup;
  clients : gmap nat client;
  records : list (log_level * string)
}.

Definition set_slash_commands (f : gmap string SlashCommand -> gmap string SlashCommand)
           (p : process) : process :=
  mkProcess (f (slash_commands p)) (slash_groups p) (clients p) (records p).
Definition set_slash_groups (f : gmap string SlashGroup -> gmap string SlashGroup)
           (p : process) : process :=
  mkProcess (slash_commands p) (f (slash_groups p)) (clients p) (records p).
Definition on_client (self : nat) (f : client -> client) (p : process) : process :=
  mkProcess (slash_commands p) (slash_groups p) (alter f self (clients p)) (records p).
Definition log (lvl : log_level) (msg : string) : M process unit :=
  modify (fun p => mkProcess (slash_commands p) (slash_groups p) (clients p)
                             (records p ++ [(lvl, msg)])).

Definition set_client_id (n : Z) (c : client) : client :=
  mkClient n (prefix_type c) (start_activity c) (start_status c)
           (session_closed c) (calls c).
Definition set_prefix_type (t : global) (c : client) : client :=
  mkClient (_client_id c) (Some t) (start_activity c) (start_status c)
           (session_closed c) (calls c).
Definition set_start_activity (a : option pyobj) (c : client) : client :=
  mkClient (_client_id c) (prefix_type c) a (start_status c)
           (session_closed c) (calls c).
Definition set_start_status (s : option pyobj) (c : client) : client :=
  mkClient (_client_id c) (prefix_type c) (start_activity c) s
           (session_closed c) (calls c).
Definition set_session_closed (c : client) : client :=
  mkClient (_client_id c) (prefix_type c) (start_activity c) (start_status c)
           true (calls c).
Definition record_call (k : call) (c : client) : client :=
  mkClient (_client_id c) (prefix_type c) (start_activity c) (start_status c)
           (session_closed c) (calls c ++ [k]).

(** *** Names in scope in [clients.py] *)

(** The names bound at module level: the imports (the import of
    [aiohttp] sits under [typing.TYPE_CHECKING] and binds nothing at run
    time), the logger, [__all__] and the two classes. *)
Definition module_globals : list (string * global) :=
  map (fun n => (n, Gobject))
      [ "annotations"; "asyncio"; "logging"; "typing"; "commands"; "events";
        "exceptions"; "gateway"; "interactions"; "models"; "presences";
        "rest"; "state_handlers"; "ux"; "_intents"; "_LOGGER"; "__all__";
        "GatewayClient"; "CommandsClient" ]%string.

(** The built-in functions and classes of Python (the built-in constants
    and exception classes are left out; none of them is named
    [function]). *)
Definition builtins : list (string * global) :=
  [ ("str", Gtype T_str); ("list", Gtype T_list); ("tuple", Gtype T_tuple);
    ("set", Gtype T_set) ]%string
  ++ map (fun n => (n, Gobject))
      [ "abs"; "aiter"; "all"; "anext"; "any"; "ascii"; "bin"; "bool";
        "breakpoint"; "bytearray"; "bytes"; "callable"; "chr"; "classmethod";
        "compile"; "complex"; "delattr"; "dict"; "dir"; "divmod"; "enumerate";
        "eval"; "exec"; "filter"; "float"; "format"; "frozenset"; "getattr";
        "globals"; "hasattr"; "hash"; "help"; "hex"; "id"; "input"; "int";
        "isinstance"; "issubclass"; "iter"; "len"; "locals"; "map"; "max";
        "memoryview"; "min"; "next"; "object"; "oct"; "open"; "ord"; "pow";
        "print"; "property"; "range"; "repr"; "reversed"; "round"; "setattr";
        "slice"; "sorted"; "staticmethod"; "sum"; "super"; "type"; "vars";
        "zip"; "__import__" ]%string.

Fixpoint assoc (n : string) (l : list (string * global)) : option global :=
  match l with
  | [] => None
  | (k, g) :: l' => if String.eqb n k then Some g else assoc n l'
  end.

(** Loading a global name: the module's globals, then the built-ins,
    then [NameError]. *)
Definition load_global (n : string) : M process global :=
  match assoc n (module_globals ++ builtins) with
  | Some g => ret g
  | None => raise (NameError n)
  end.

(** [isinstance(prefix_or_function, cls)] *)
Definition isinstance (p : prefix_arg) (cls : global) : M process bool :=
  match cls with
  | Gtype t => ret (bool_decide (type_of p = Some t))
  | Gobject =>
      raise (OtherError "TypeError"
               "isinstance() arg 2 must be a type, a tuple of types, or a union")
  end.

(** *** [CommandsClient] *)

(** [CommandsClient.add_slash_command] *)
Definition add_slash_command (self : nat) (command : SlashCommand)
  : M process unit :=
  let name := command_name command in
  let* registry := gets slash_commands in
  if bool_decide (name ∈ dom registry)
  then raise (CommandAlreadyExists
                ("A slash command named " +:+ name +:+ " already exists."))
  else
    log DEBUG ("Adding slash command " +:+ name +:+ " to bot.") >>
    modify (set_slash_commands (<[name := command]>)).

(** [CommandsClient.add_slash_group] *)
Definition add_slash_group (self : nat) (group : SlashGroup)
  : M process unit :=
  let name := group_name group in
  let* registry := gets slash_groups in
  if bool_decide (name ∈ dom registry)
  then raise (CommandAlreadyExists
                ("A slash command named " +:+ name +:+ " already exists."))
  else
    log DEBUG ("Adding slash group " +:+ name +:+ " to bot.") >>
    modify (set_slash_groups (<[name := group]>)).

(** [isinstance(prefix_or_function, <name>)], the class looked up by its
    name. *)
Definition isinstance_of (p : prefix_arg) (cls_name : string) : M process bool :=
  let* cls := load_global cls_name in
  isinstance p cls.

(** [self.prefix_type = <name>] *)
Definition assign_prefix_type (self : nat) (cls_name : string) : M process unit :=
  let* cls := load_global cls_name in
  modify (on_client self (set_prefix_type cls)).

(** [type(prefix_or_function)] *)
Definition type_object (p : prefix_arg) : global :=
  match type_of p with Some t => Gtype t | None => Gobject end.

(** [CommandsClient.set_prefix]; the result is [self]. *)
Definition set_prefix (self : nat) (prefix_or_function : prefix_arg)
  : M process nat :=
  (let* is_str := isinstance_of prefix_or_function "str" in
   if is_str then assign_prefix_type self "str"
   else
     let* is_collection :=
       (let* is_list := isinstance_of prefix_or_function "list" in
        if is_list then ret true
        else
          let* is_tuple := isinstance_of prefix_or_function "tuple" in
          if is_tuple then ret true
          else isinstance_of prefix_or_function "set") in
     if is_collection
     then modify (on_client self (set_prefix_type (type_object prefix_or_function)))
     else
       let* is_function := isinstance_of prefix_or_function "function" in
       if is_function then assign_prefix_type self "function"
       else ret tt) >>
  ret self.

(** *** [GatewayClient.start] *)

(** How a call on a transport or on the event handler ends. *)
Inductive answer (A : Type) : Type :=
| Returns (a : A)
| Raises (e : Exception).
Arguments Returns {A} a.
Arguments Raises {A} e.

(** The REST transport, the gateway and the event handler of a client,
    by how each of their calls ends. *)
Record backend : Type := mkBackend {
  dispatch : Event -> answer unit;
  _get_socket_ready : answer unit;
  fetch_client_user : answer User;
  listen_gateway : answer unit;
  session_close : answer unit
}.

(** A call on the backend: it is recorded on the client, then returns or
    raises.  The call is taken by how it ends alone: what the listeners
    run by a dispatch or by the listen loop do to the process (registering
    commands, calling other clients) is not part of this model, which
    therefore says nothing on what [start] leaves untouched. *)
Definition perform {A} (self : nat) (k : call) (a : answer A) : M process A :=
  modify (on_client self (record_call k)) >>
  match a with
  | Returns x => ret x
  | Raises e => raise e
  end.

(** [try: body except <classes matched by handler> as e: handler e] *)
Definition try_except {St A} (body : M St A)
           (handler : Exception -> option (M St A)) : M St A :=
  fun st =>
    match body st with
    | (inr a, st') => (inr a, st')
    | (inl e, st') =>
        match handler e with
        | Some h => h st'
        | None => (inl e, st')
        end
    end.

(** [isinstance(e, exceptions.Unauthorized)] *)
Definition is_Unauthorized (e : Exception) : bool :=
  match e with Unauthorized _ => true | _ => false end.

Definition _listeners_setups : M process unit := ret tt.

(** [await self.rest._session.close()] *)
Definition close_session (b : backend) (self : nat) : M process unit :=
  perform self SessionClose (session_close b) >>
  modify (on_client self set_session_closed).

(** [GatewayClient.start] *)
Definition start (b : backend) (self : nat) (activity status : option pyobj)
  : M process unit :=
  _listeners_setups >>
  perform self (Dispatch STARTING) (dispatch b STARTING) >>
  modify (on_client self (set_start_activity activity)) >>
  modify (on_client self (set_start_status status)) >>
  perform self GetSocketReady (_get_socket_ready b) >>
  log INFO "Logging in with bot token." >>
  try_except
    (let* res := perform self FetchClientUser (fetch_client_user b) in
     log INFO "Logged in to the gateway with bot token." >>
     log INFO ("(Session info) User ID: " +:+ str_int (user_id res)
               +:+ ", Username: " +:+ username res) >>
     modify (on_client self (set_client_id (user_id res))) >>
     perform self (Dispatch STARTED) (dispatch b STARTED) >>
     perform self ListenGateway (listen_gateway b))
    (fun e =>
       if is_Unauthorized e
       then Some (close_session b self >> raise e)
       else None).

(** Whether the HTTP session of client [self] has been closed. *)
Definition closed_session_of (self : nat) (p : process) : bool :=
  match clients p !! self with
  | Some c => session_closed c
  | None => false
  end.

(** The steps of [start] that can fail, in their order; the last three
    stand inside the [try] block. *)
Inductive stage : Type :=
| AtDispatchStarting
| AtSocketReady
| AtFetchUser
| AtDispatchStarted
| AtListen.

Definition guarded (s : stage) : bool :=
  match s with
  | AtFetchUser | AtDispatchStarted | AtListen => true
  | AtDispatchStarting | AtSocketReady => false
  end.

(** The first step of a startup on backend [b] that fails, and the
    exception it fails with. *)
Definition first_failure (b : backend) : option (stage * Exception) :=
  match dispatch b STARTING with
  | Raises e => Some (AtDispatchStarting, e)
  | Returns _ =>
  match _get_socket_ready b with
  | Raises e => Some (AtSocketReady, e)
  | Returns _ =>
  match fetch_client_user b with
  | Raises e => Some (AtFetchUser, e)
  | Returns _ =>
  match dispatch b STARTED with
  | Raises e => Some (AtDispatchStarted, e)
  | Returns _ =>
  match listen_gateway b with
  | Raises e => Some (AtListen, e)
  | Returns _ => None
  end end end end end.

(** A process with one fresh client, of identity 0, and empty
    registries. *)
Definition fresh_process : process :=
  mkProcess ∅ ∅ {[ 0%nat := new_client ]} [].

Definition ping : SlashCommand := mkSlashCommand "ping" "Replies with pong.".
Definition echo : SlashCommand := mkSlashCommand "echo" "Repeats the input.".
Definition admin : SlashGroup := mkSlashGroup "admin" "Administration.".
Definition tools : SlashGroup := mkSlashGroup "tools" "Utilities.".

(** The process after [ping] has been registered. *)
Definition ping_registered : process :=
  snd (add_slash_command 0 ping fresh_process).

(** A backend whose REST call answers the bot's user, and whose gateway
    then refuses the token in the listen loop. *)
Definition gateway_refuses : backend :=
  mkBackend (fun _ => Returns tt) (Returns tt)
            (Returns (mkUser 42 "wyvern"))
            (Raises (Unauthorized "401: Unauthorized"))
            (Returns tt).

(** A backend whose REST call rejects the token. *)
Definition token_rejected : backend :=
  mkBackend (fun _ => Returns tt) (Returns tt)
            (Raises (Unauthorized "401: Unauthorized"))
            (Returns tt) (Returns tt).

(** The call each step of [start] makes. *)
Definition stage_call (s : stage) : call :=
  match s with
  | AtDispatchStarting => Dispatch STARTING
  | AtSocketReady => GetSocketReady
  | AtFetchUser => FetchClientUser
  | AtDispatchStarted => Dispatch STARTED
  | AtListen => ListenGateway
  end.

(** The steps of [start] up to and including [s], in their order. *)
Definition stages_until (s : stage) : list stage :=
  match s with
  | AtDispatchStarting => [AtDispatchStarting]
  | AtSocketReady => [AtDispatchStarting; AtSocketReady]
  | AtFetchUser => [AtDispatchStarting; AtSocketReady; AtFetchUser]
  | AtDispatchStarted =>
      [AtDispatchStarting; AtSocketReady; AtFetchUser; AtDispatchStarted]
  | AtListen =>
      [AtDispatchStarting; AtSocketReady; AtFetchUser; AtDispatchStarted;
       AtListen]
  end.

(** A backend on which every step of [start] succeeds and the listen loop
    comes to an end. *)
Definition healthy : backend :=
  mkBackend (fun _ => Returns tt) (Returns tt)
            (Returns (mkUser 42 "wyvern")) (Returns tt) (Returns tt).

(** A backend that rejects the token and then fails to close the
    session. *)
Definition close_fails : backend :=
  mkBackend (fun _ => Returns tt) (Returns tt)
            (Raises (Unauthorized "401: Unauthorized"))
            (Returns tt)
            (Raises (OtherError "ClientError" "session is broken")).

(** A process with two fresh clients, of identities 0 and 1. *)
Definition two_clients : process :=
  mkProcess ∅ ∅ {[ 0%nat := new_client; 1%nat := new_client ]} [].

(** *** [CommandsClient.include] *)

Section WithEventHandler.

(** [events.EventListener] and [EventHandler.add_listener] are declared in
    [events.py]; [add_listener self l] stands for
    [self.event_handler.add_listener(l)]. *)
Variable EventListener : Type.
Variable add_listener : nat -> EventListener -> M process unit.

(** The argument of [include], by the two [isinstance] tests. *)
Inductive includable : Type :=
| IsListener (l : EventListener)
| IsCommand (c : SlashCommand)
| IsOther (o : pyobj).

(** [CommandsClient.include]: [inner()] registers, then the argument is
    returned. *)
Definition include (self : nat) (listener_or_command : includable)
  : M process includable :=
  match listener_or_command with
  | IsListener l => add_listener self l
  | IsCommand c => add_slash_command self c
  | IsOther _ => ret tt
  end >>
  ret listener_or_command.

End WithEventHandler.

Arguments IsListener {EventListener} l.
Arguments IsCommand {EventListener} c.
Arguments IsOther {EventListener} o.
Arguments include {EventListener} add_listener self listener_or_command.

End Clients.

(** * Properties *)

(** ** Repeating timers *)
Module TasksFacts.
Import Tasks.

(** *** Properties of [run] and [stop] *)

Lemma run_idle (w : loop_state) args kwargs :
  is_running (the_task w) = false ->
  run args kwargs w =
    (inr tt,
     mkLoop (set_is_running true (the_task w))
            (runners w ++ [mkCoroutine (args ++ star kwargs) [] Created])
            (invoked w)).
Proof. intros Hidle. unfold run, bind, gets. simpl. now rewrite Hidle. Qed.

Lemma run_running (w : loop_state) args kwargs :
  is_running (the_task w) = true ->
  run args kwargs w = (inl (BaseError "The task is already running."), w).
Proof. intros Hrun. unfold run, bind, gets. simpl. now rewrite Hrun. Qed.

Lemma stop_spec (w : loop_state) :
  stop w = (inr tt, mkLoop (set_is_running false (the_task w))
                           (runners w) (invoked w)).
Proof. reflexivity. Qed.

(** C8: a task is either idle or running; [run] takes an idle task to
    running and schedules one runner; [run] on a running task raises the
    double-start error and changes nothing (no second runner); after
    [stop] the flag is false. *)
Theorem task_run_stop_state_machine (w : loop_state) args kwargs :
  match state_of (the_task w) with
  | Idle =>
      exists w', run args kwargs w = (inr tt, w')
                 /\ state_of (the_task w') = Running
                 /\ length (runners w') = S (length (runners w))
  | Running =>
      run args kwargs w = (inl (BaseError "The task is already running."), w)
  end
  /\ fst (stop w) = inr tt
  /\ is_running (the_task (snd (stop w))) = false
  /\ state_of (the_task (snd (stop w))) = Idle.
Proof.
  split; [| now rewrite stop_spec].
  unfold state_of. destruct (is_running (the_task w)) eqn:Hflag.
  - now apply run_running.
  - eexists. split; [now apply run_idle |]. simpl. split; [reflexivity |].
    rewrite length_app. simpl. lia.
Qed.

Lemma from_run_mono S e a k : from_run S a k -> from_run (S ++ [e]) a k.
Proof.
  intros (Hk & args & kwargs & Hin & Ha). split; [exact Hk |].
  exists args, kwargs. split; [| exact Ha]. apply in_or_app. now left.
Qed.

Lemma _runner_from_run S t r :
  from_run S (co_args r) (co_kwargs r) ->
  from_run S (co_args (fst (_runner t r))) (co_kwargs (fst (_runner t r)))
  /\ Forall (fun c => from_run S (inv_args c) (inv_kwargs c)) (snd (_runner t r)).
Proof.
  intros Hr. unfold _runner, loop_head.
  destruct (co_phase r), (is_running t), (wait_until_complete t); simpl;
    (split; [exact Hr |]);
    first [ apply Forall_nil_2 | apply Forall_cons; split; [exact Hr | apply Forall_nil_2] ].
Qed.

Lemma step_from_run S e w :
  loop_from_run S w -> loop_from_run (S ++ [e]) (snd (step e w)).
Proof.
  intros [Hrs Hcs].
  assert (Hrs' : Forall (fun r => from_run (S ++ [e]) (co_args r) (co_kwargs r))
                        (runners w))
    by (eapply Forall_impl; [exact Hrs | intros r; apply from_run_mono]).
  assert (Hcs' : Forall (fun c => from_run (S ++ [e]) (inv_args c) (inv_kwargs c))
                        (invoked w))
    by (eapply Forall_impl; [exact Hcs | intros c; apply from_run_mono]).
  destruct e as [args kwargs | | d | i]; simpl.
  - destruct (is_running (the_task w)) eqn:Hflag.
    + rewrite run_running by exact Hflag. now split.
    + rewrite run_idle by exact Hflag. simpl. split; [| exact Hcs'].
      apply Forall_app. split; [exact Hrs' |]. constructor; [| constructor].
      simpl. split; [reflexivity |]. exists args, kwargs. split; [| reflexivity].
      apply in_or_app. right. now left.
  - now split.
  - now split.
  - unfold resume, modify. simpl.
    destruct (runners w !! i) as [r |] eqn:Hi; [| now split].
    pose proof (Forall_lookup_1 _ _ _ _ Hrs' Hi) as Hr.
    destruct (_runner_from_run (S ++ [Resume i]) (the_task w) r Hr)
      as [Hr' Hcalls].
    destruct (_runner (the_task w) r) as [r' calls]. simpl in *.
    split.
    + now apply Forall_insert.
    + apply Forall_app. now split.
Qed.

Lemma play_from_run es : forall S w,
  loop_from_run S w -> loop_from_run (S ++ es) (play es w).
Proof.
  induction es as [| e es IH]; intros S w Hw; simpl.
  - now rewrite app_nil_r.
  - replace (S ++ e :: es) with ((S ++ [e]) ++ es)
      by (now rewrite <- app_assoc).
    apply IH. now apply step_from_run.
Qed.

(** C9: [run(args, kwargs)] followed by the first resumption of the
    runner calls the trigger with the keys of [kwargs], as strings and in
    the order of the mapping, appended to [args], and with no keyword
    argument: for the mapping [{k1: v1, k2: v2}] the call is
    [trigger( *args, k1, k2)], the values being dropped; and along every
    schedule, every call of the trigger has no keyword argument and takes
    its positional arguments from some [run] in that way. *)
Theorem run_passes_kwargs_keys_positionally
        (t : Task) args kwargs (es : list event)
        (k1 k2 : string) (v1 v2 : pyobj) :
  invoked (play [Run args kwargs; Resume 0] (init_loop (set_is_running false t)))
    = [mkInvocation (args ++ map (fun kv => PyStr (fst kv)) kwargs) []
                    (wait_until_complete t)]
  /\ invoked (play [Run args [(k1, v1); (k2, v2)]; Resume 0]
                   (init_loop (set_is_running false t)))
     = [mkInvocation (args ++ [PyStr k1; PyStr k2]) [] (wait_until_complete t)]
  /\ Forall (fun c => inv_kwargs c = []
                      /\ exists a k,
                          In (Run a k) es
                          /\ inv_args c = a ++ map (fun kv => PyStr (fst kv)) k)
            (invoked (play es (init_loop t))).
Proof.
  split; [| split].
  - simpl. unfold resume, modify, _runner, loop_head. simpl.
    now destruct (wait_until_complete t).
  - simpl. unfold resume, modify, _runner, loop_head. simpl.
    now destruct (wait_until_complete t).
  - apply (play_from_run es [] (init_loop t)). split; constructor.
Qed.

Example run_with_two_keywords :
  invoked (play [Run [PyInt 1] [("channel"%string, PyInt 2);
                                ("times"%string, PyInt 3)];
                 Resume 0]
                (init_loop (mkTask 0%nat 5 true false)))
  = [mkInvocation [PyInt 1; PyStr "channel"; PyStr "times"] [] true].
Proof. reflexivity. Qed.

Lemma _runner_stopped t r :
  is_running t = false -> snd (_runner t r) = [].
Proof.
  intros Hflag. unfold _runner, loop_head. rewrite Hflag.
  now destruct (co_phase r).
Qed.

Lemma step_stopped e w :
  is_running (the_task w) = false -> is_Run e = false ->
  is_running (the_task (snd (step e w))) = false
  /\ invoked (snd (step e w)) = invoked w.
Proof.
  intros Hflag He. destruct e as [args kwargs | | d | i]; simpl in *;
    try discriminate; try (split; [assumption || reflexivity | reflexivity]).
  unfold resume, modify. simpl.
  destruct (runners w !! i) as [r |]; [| now split].
  pose proof (_runner_stopped (the_task w) r Hflag) as Hcalls.
  destruct (_runner (the_task w) r) as [r' calls]. simpl in *. subst calls.
  split; [exact Hflag | apply app_nil_r].
Qed.

(** Once the flag is cleared and until the next [run], no runner calls
    the trigger again, whatever the event loop resumes. *)
Lemma play_stopped es : forall w,
  is_running (the_task w) = false ->
  Forall (fun e => is_Run e = false) es ->
  is_running (the_task (play es w)) = false
  /\ invoked (play es w) = invoked w.
Proof.
  induction es as [| e es IH]; intros w Hflag Hes; simpl; [now split |].
  inversion Hes as [| e' es' He Hes' ]; subst.
  destruct (step_stopped e w Hflag He) as [Hflag' Hinv].
  destruct (IH _ Hflag' Hes') as [Hflag'' Hinv'].
  split; [exact Hflag'' | congruence].
Qed.

(** C1, as stated, fails: the task below is started and its runner is
    asleep; after [stop] the runner wakes up, finds the flag cleared and
    leaves the loop without another call of the trigger. *)
Lemma stop_while_sleeping_counterexample :
  is_running (the_task sleeping_task) = true
  /\ runners sleeping_task !! 0%nat = Some (mkCoroutine [] [] (Sleeping 5))
  /\ invoked (play [Stop; Resume 0] sleeping_task) = invoked sleeping_task
  /\ ~ fires_once_more_after_stop sleeping_task 0.
Proof.
  repeat split; try reflexivity.
  intros [c Hc]. vm_compute in Hc. discriminate Hc.
Qed.

(** C1, amended: [stop] clears the flag and cancels nothing, so a runner
    asleep at that moment stays asleep until its sleep is over; it then
    tests the flag first, leaves the loop and does not call the trigger
    again; nor does any other resumption, as long as [run] is not called
    anew. *)
Theorem stop_while_sleeping (w : loop_state) (i : nat) (r : coroutine)
        (d : Z) (es : list event) :
  runners w !! i = Some r ->
  co_phase r = Sleeping d ->
  Forall (fun e => is_Run e = false) es ->
  let w1 := snd (stop w) in
  is_running (the_task w1) = false
  /\ runners w1 !! i = Some r
  /\ runners (snd (resume i w1)) !! i = Some (set_phase Finished r)
  /\ invoked (snd (resume i w1)) = invoked w
  /\ invoked (play es w1) = invoked w.
Proof.
  intros Hi Hr Hes. simpl. repeat split.
  - exact Hi.
  - unfold resume, modify. simpl. rewrite Hi. unfold _runner. rewrite Hr.
    simpl. apply list_lookup_insert_eq. now apply lookup_lt_Some in Hi.
  - unfold resume, modify. simpl. rewrite Hi. unfold _runner. rewrite Hr.
    simpl. apply app_nil_r.
  - now apply (play_stopped es (snd (stop w))).
Qed.

Lemma stop_while_sleeping_witness :
  runners sleeping_task !! 0%nat = Some (mkCoroutine [] [] (Sleeping 5))
  /\ invoked (play [Resume 0; UpdateDelay 1; Resume 0] (snd (stop sleeping_task)))
     = invoked sleeping_task.
Proof.
  split; [reflexivity |].
  apply (stop_while_sleeping sleeping_task 0 (mkCoroutine [] [] (Sleeping 5)) 5
                             [Resume 0; UpdateDelay 1; Resume 0]).
  - reflexivity.
  - reflexivity.
  - repeat constructor.
Defined.

(** The invalid-configuration error is raised exactly when the number of
    supplied delay fields is not one. *)
Lemma task_ValueError_iff s m h wait trig :
  (exists msg, task s m h wait trig = inl (ValueError msg))
  <-> supplied s m h <> 1%nat.
Proof.
  unfold task, supplied, resolve_delay, truthy.
  destruct s as [s |], m as [m |], h as [h |]; simpl; split;
    try (intros _; lia);
    try (intros _; eexists; reflexivity);
    try (intros H; exfalso; now apply H);
    intros [msg H];
    repeat match type of H with
           | context [negb (?x =? 0)] => destruct (x =? 0); simpl in H
           end; discriminate H.
Qed.

(** One supplied field with a non-zero value: the task is built with the
    delay in seconds and the given flag, and it is not running. *)
Lemma task_single_nonzero (x : Z) wait trig :
  x <> 0 ->
  task (Some x) None None wait trig = inr (mkTask trig x wait false)
  /\ task None (Some x) None wait trig = inr (mkTask trig (x * 60) wait false)
  /\ task None None (Some x) wait trig = inr (mkTask trig (x * 60 * 60) wait false).
Proof.
  intros Hx. apply Z.eqb_neq in Hx.
  unfold task, resolve_delay, truthy. simpl. now rewrite Hx.
Qed.

Example task_two_minutes trig :
  task None (Some 2) None true trig = inr (mkTask trig 120 true false).
Proof. reflexivity. Qed.

(** C4: with exactly one delay field supplied and its value zero, the
    builder yields no task: the [if s: ... elif m: ... elif h: ...] chain
    tests the values for truth, binds no [delay], and the construction of
    the task fails on the unbound local. *)
Theorem task_single_zero_unbound (wait : bool) (trig : callback) :
  supplied (Some 0) None None = 1%nat
  /\ task (Some 0) None None wait trig = inl (UnboundLocalError "delay")
  /\ task None (Some 0) None wait trig = inl (UnboundLocalError "delay")
  /\ task None None (Some 0) wait trig = inl (UnboundLocalError "delay").
Proof. repeat split. Qed.

(** *** More on the runner *)

Lemma resume_lookup (w : loop_state) (i : nat) (r : coroutine) :
  runners w !! i = Some r ->
  snd (resume i w)
  = mkLoop (the_task w) (<[i := fst (_runner (the_task w) r)]> (runners w))
           (invoked w ++ snd (_runner (the_task w) r)).
Proof.
  intros Hi. unfold resume, modify. simpl. rewrite Hi.
  now destruct (_runner (the_task w) r).
Qed.

Lemma resume_missing (w : loop_state) (i : nat) :
  runners w !! i = None -> snd (resume i w) = w.
Proof. intros Hi. unfold resume, modify. simpl. now rewrite Hi. Qed.

(** A runner that starts, or wakes up from its sleep, with the flag set
    calls the trigger and suspends again. *)
Lemma resume_fires (w : loop_state) (i : nat) (r : coroutine) :
  runners w !! i = Some r -> woken r -> is_running (the_task w) = true ->
  snd (resume i w)
  = mkLoop (the_task w)
           (<[i := set_phase (if wait_until_complete (the_task w)
                              then AwaitingTrigger
                              else Sleeping (delay (the_task w))) r]> (runners w))
           (invoked w ++ [mkInvocation (co_args r) (co_kwargs r)
                                       (wait_until_complete (the_task w))]).
Proof.
  intros Hi Hr Hflag. rewrite (resume_lookup w i r Hi).
  unfold _runner, loop_head. rewrite Hflag.
  destruct Hr as [-> | [d ->]];
    now destruct (wait_until_complete (the_task w)).
Qed.

(** A runner whose awaited trigger has completed goes to sleep for the
    delay the task has at that moment. *)
Lemma resume_awaited (w : loop_state) (i : nat) (r : coroutine) :
  runners w !! i = Some r -> co_phase r = AwaitingTrigger ->
  snd (resume i w)
  = mkLoop (the_task w)
           (<[i := set_phase (Sleeping (delay (the_task w))) r]> (runners w))
           (invoked w).
Proof.
  intros Hi Hr. rewrite (resume_lookup w i r Hi).
  unfold _runner. rewrite Hr. simpl. now rewrite app_nil_r.
Qed.

(** X1: [update_delay] leaves a sleep in progress as it is and sets the
    delay of the next one: a runner asleep for [d] stays asleep for [d],
    and after its next turn of the loop it sleeps for the new delay. *)
Theorem update_delay_applies_to_next_sleep (w : loop_state) (i : nat)
        (r : coroutine) (d d' : Z) :
  runners w !! i = Some r ->
  co_phase r = Sleeping d ->
  is_running (the_task w) = true ->
  let w1 := snd (update_delay d' w) in
  runners w1 !! i = Some r
  /\ invoked w1 = invoked w
  /\ runners (play (one_turn (the_task w) i) w1) !! i
     = Some (set_phase (Sleeping d') r).
Proof.
  intros Hi Hr Hflag w1.
  assert (Hw1 : w1 = mkLoop (set_delay d' (the_task w)) (runners w) (invoked w))
    by reflexivity.
  rewrite Hw1. clear w1 Hw1.
  split; [exact Hi |]. split; [reflexivity |].
  pose proof (lookup_lt_Some _ _ _ Hi) as Hlt.
  set (w1 := mkLoop (set_delay d' (the_task w)) (runners w) (invoked w)).
  assert (Hfire := resume_fires w1 i r Hi (or_intror (ex_intro _ d Hr)) Hflag).
  unfold one_turn.
  destruct (wait_until_complete (the_task w)) eqn:Hwait; cbn [play step].
  - cbn [w1 the_task set_delay wait_until_complete] in Hfire.
    rewrite Hwait in Hfire. rewrite Hfire.
    rewrite resume_awaited with (r := set_phase AwaitingTrigger r);
      [| now apply list_lookup_insert_eq | reflexivity].
    cbn. rewrite list_insert_insert_eq. now apply list_lookup_insert_eq.
  - cbn [w1 the_task set_delay wait_until_complete] in Hfire.
    rewrite Hwait in Hfire. rewrite Hfire.
    cbn. now apply list_lookup_insert_eq.
Qed.

Lemma update_delay_applies_to_next_sleep_witness :
  runners (play (one_turn (the_task sleeping_task) 0)
                (snd (update_delay 60 sleeping_task))) !! 0%nat
  = Some (mkCoroutine [] [] (Sleeping 60)).
Proof.
  apply (update_delay_applies_to_next_sleep sleeping_task 0
           (mkCoroutine [] [] (Sleeping 5)) 5 60); reflexivity.
Defined.

(** X2: restarting a task while its old runner is still asleep leaves two
    live runners: after [stop] and a new [run], the old runner finds the
    flag set again when it wakes up and calls the trigger with its old
    arguments, and the new runner calls it with the new ones. *)
Theorem restart_while_sleeping_two_runners (w : loop_state) (i : nat)
        (r : coroutine) (d : Z) args kwargs :
  runners w !! i = Some r ->
  co_phase r = Sleeping d ->
  let j := length (runners w) in
  let wait := wait_until_complete (the_task w) in
  let w' := play [Stop; Run args kwargs; Resume i; Resume j] w in
  is_running (the_task w') = true
  /\ invoked w'
     = invoked w ++ [mkInvocation (co_args r) (co_kwargs r) wait;
                     mkInvocation (args ++ star kwargs) [] wait]
  /\ (exists r', runners w' !! i = Some r' /\ co_phase r' <> Finished)
  /\ (exists r', runners w' !! j = Some r' /\ co_phase r' <> Finished).
Proof.
  intros Hi Hr j wait w'.
  pose proof (lookup_lt_Some _ _ _ Hi) as Hlt.
  set (fresh := mkCoroutine (args ++ star kwargs) [] Created).
  set (w2 := mkLoop (set_is_running true (the_task w))
                    (runners w ++ [fresh]) (invoked w)).
  assert (Hw' : w' = snd (resume j (snd (resume i w2)))) by reflexivity.
  assert (Hi2 : runners w2 !! i = Some r)
    by (cbn; now rewrite lookup_app_l).
  assert (H3 := resume_fires w2 i r Hi2 (or_intror (ex_intro _ d Hr)) eq_refl).
  set (w3 := snd (resume i w2)) in *.
  assert (Hj3 : runners w3 !! j = Some fresh).
  { rewrite H3. cbn. rewrite list_lookup_insert_ne by (unfold j; lia).
    unfold j. now rewrite lookup_app_r, Nat.sub_diag by lia. }
  assert (Hflag3 : is_running (the_task w3) = true) by now rewrite H3.
  assert (H4 := resume_fires w3 j fresh Hj3 (or_introl eq_refl) Hflag3).
  rewrite Hw', H4. clear Hw' H4.
  assert (Hlen3 : length (runners w3) = S (length (runners w)))
    by (rewrite H3; cbn; rewrite length_insert, length_app; simpl; lia).
  assert (Ht3 : the_task w3 = set_is_running true (the_task w))
    by now rewrite H3.
  cbn [the_task runners invoked]. rewrite Ht3.
  split; [reflexivity |]. split.
  - rewrite H3. cbn. now rewrite <- app_assoc.
  - split; eexists; (split; [| shelve]).
    + rewrite list_lookup_insert_ne by (unfold j; lia).
      rewrite H3. cbn. apply list_lookup_insert_eq.
      rewrite length_app. simpl. lia.
    + apply list_lookup_insert_eq. unfold j. lia.
    Unshelve.
    * cbn. now destruct (wait_until_complete (the_task w)).
    * cbn. now destruct (wait_until_complete (the_task w)).
Qed.

Lemma restart_while_sleeping_two_runners_witness :
  invoked (play [Stop; Run [PyInt 7] []; Resume 0; Resume 1] sleeping_task)
  = invoked sleeping_task ++ [mkInvocation [] [] true;
                              mkInvocation [PyInt 7] [] true].
Proof.
  apply (restart_while_sleeping_two_runners sleeping_task 0
           (mkCoroutine [] [] (Sleeping 5)) 5 [PyInt 7] []); reflexivity.
Defined.

Lemma step_runner_lookup (e : event) (w : loop_state) (i : nat) (r : coroutine) :
  runners w !! i = Some r ->
  exists r', runners (snd (step e w)) !! i = Some r'
             /\ (is_Resume e = false -> r' = r)
             /\ (co_phase r = Finished -> r' = r).
Proof.
  intros Hi. pose proof (lookup_lt_Some _ _ _ Hi) as Hlt.
  destruct e as [args kwargs | | d | j]; cbn [step is_Resume].
  - exists r. split; [| now split].
    destruct (is_running (the_task w)) eqn:Hflag.
    + now rewrite run_running.
    + rewrite run_idle by exact Hflag. cbn. now rewrite lookup_app_l.
  - exists r. now repeat split.
  - exists r. now repeat split.
  - destruct (runners w !! j) as [rj |] eqn:Hj.
    + rewrite (resume_lookup w j rj Hj). cbn [runners].
      destruct (decide (j = i)) as [-> | Hne].
      * rewrite list_lookup_insert_eq by exact Hlt.
        eexists. split; [reflexivity |]. split; [discriminate |].
        intros Hfin. assert (rj = r) by congruence. subst rj.
        unfold _runner. now rewrite Hfin.
      * rewrite list_lookup_insert_ne by exact Hne.
        exists r. now repeat split.
    + rewrite (resume_missing w j Hj). exists r. now repeat split.
Qed.

(** X3: a runner that has left its loop is never revived: along every
    schedule, whatever is stopped, restarted or resumed, it stays as it is,
    and resuming it calls nothing. *)
Theorem finished_runner_stays_finished (es : list event) (w : loop_state)
        (i : nat) (r : coroutine) :
  runners w !! i = Some r ->
  co_phase r = Finished ->
  runners (play es w) !! i = Some r
  /\ invoked (snd (resume i (play es w))) = invoked (play es w).
Proof.
  intros Hi Hfin.
  assert (Hkeep : runners (play es w) !! i = Some r).
  { revert w Hi. induction es as [| e es IH]; intros w Hi; [exact Hi |].
    cbn [play]. apply IH.
    destruct (step_runner_lookup e w i r Hi) as (r' & Hr' & _ & Hsame).
    now rewrite Hr', (Hsame Hfin). }
  split; [exact Hkeep |].
  rewrite (resume_lookup _ i r Hkeep). unfold _runner. rewrite Hfin.
  cbn. apply app_nil_r.
Qed.

Lemma finished_runner_stays_finished_witness :
  runners (play [Run [] []; Resume 0; Resume 1; Resume 0]
                (play [Stop; Resume 0] sleeping_task)) !! 0%nat
  = Some (mkCoroutine [] [] Finished).
Proof.
  apply (finished_runner_stays_finished
           [Run [] []; Resume 0; Resume 1; Resume 0]
           (play [Stop; Resume 0] sleeping_task) 0
           (mkCoroutine [] [] Finished)); reflexivity.
Defined.

Lemma _runner_at_most_one_call (t : Task) (r : coroutine) :
  (length (snd (_runner t r)) <= 1)%nat.
Proof.
  unfold _runner, loop_head.
  destruct (co_phase r), (is_running t), (wait_until_complete t); simpl; lia.
Qed.

Lemma step_calls (e : event) (w : loop_state) :
  exists calls, invoked (snd (step e w)) = invoked w ++ calls
                /\ (length calls <= if is_Resume e then 1 else 0)%nat.
Proof.
  destruct e as [args kwargs | | d | j]; cbn [step is_Resume].
  - exists []. rewrite app_nil_r. split; [| simpl; lia].
    destruct (is_running (the_task w)) eqn:Hflag.
    + now rewrite run_running.
    + now rewrite run_idle.
  - exists []. now rewrite app_nil_r.
  - exists []. now rewrite app_nil_r.
  - destruct (runners w !! j) as [rj |] eqn:Hj.
    + rewrite (resume_lookup w j rj Hj). cbn [invoked].
      eexists. split; [reflexivity | apply _runner_at_most_one_call].
    + rewrite (resume_missing w j Hj). exists [].
      rewrite app_nil_r. split; [reflexivity | simpl; lia].
Qed.

(** X4: the record of calls of the trigger only grows, by at most one
    call per resumption of a runner; [run], [stop] and [update_delay]
    never call the trigger themselves. *)
Theorem calls_bounded_by_resumptions (es : list event) (w : loop_state) :
  exists calls,
    invoked (play es w) = invoked w ++ calls
    /\ (length calls <= resumptions es)%nat.
Proof.
  revert w. induction es as [| e es IH]; intros w.
  - exists []. rewrite app_nil_r. split; [reflexivity | simpl; lia].
  - cbn [play]. destruct (step_calls e w) as (c1 & H1 & Hl1).
    destruct (IH (snd (step e w))) as (c2 & H2 & Hl2).
    exists (c1 ++ c2). rewrite H2, H1, <- app_assoc. split; [reflexivity |].
    rewrite length_app. unfold resumptions in *. cbn [List.filter].
    destruct (is_Resume e); simpl in *; lia.
Qed.

(** X5: what the builder returns, case by case: the invalid-configuration
    error exactly when the number of supplied fields is not one; the
    unbound-local error exactly when one field is supplied and it is zero;
    otherwise a task that is not running, carries the trigger and the
    flag, and has a non-zero delay: the seconds, the minutes times 60 or
    the hours times 3600. *)
Theorem task_outcome (s m h : option Z) (wait : bool) (trig : callback) :
  match task s m h wait trig with
  | inr t =>
      supplied s m h = 1%nat
      /\ trigger t = trig /\ wait_until_complete t = wait
      /\ is_running t = false /\ delay t <> 0
      /\ (s = Some (delay t)
          \/ (exists x, m = Some x /\ delay t = x * 60)
          \/ (exists x, h = Some x /\ delay t = x * 60 * 60))
  | inl e =>
      (supplied s m h <> 1%nat
       /\ e = ValueError "Only one delay field can be used for the decorator.")
      \/ (supplied s m h = 1%nat
          /\ (s = Some 0 \/ m = Some 0 \/ h = Some 0)
          /\ e = UnboundLocalError "delay")
  end.
Proof.
  unfold task, supplied, resolve_delay, truthy.
  destruct s as [s |], m as [m |], h as [h |]; cbn;
    try (left; split; [lia | reflexivity]).
  - destruct (Z.eqb_spec s 0) as [-> | Hs]; cbn.
    + right. repeat split. now left.
    + repeat split; try assumption. now left.
  - destruct (Z.eqb_spec m 0) as [-> | Hm]; cbn.
    + right. repeat split. right. now left.
    + repeat split; try lia. right. left. now exists m.
  - destruct (Z.eqb_spec h 0) as [-> | Hh]; cbn.
    + right. repeat split. right. now right.
    + repeat split; try lia. right. right. now exists h.
Qed.

End TasksFacts.

(** ** Timestamp markup *)
Module UtilsFacts.
Import Utils.

(** A point in time is rendered with its epoch second and the style as
    given; the style is not inspected. *)
Lemma create_timestamp_datetime (h : host) (d : datetime) (style : string) :
  create_timestamp h (inl d) style
  = "<t:" +:+ str_int (int_timestamp h d) +:+ ":" +:+ style +:+ ">".
Proof. reflexivity. Qed.

Example create_timestamp_relative (h : host) :
  create_timestamp h (inl (Aware (1700000000 * 1000000) 0)) "R"
  = "<t:1700000000:R>"%string.
Proof. reflexivity. Qed.

Example create_timestamp_any_style (h : host) :
  create_timestamp h (inl (Aware (-1500000) 0)) "no such style"
  = "<t:-1:no such style>"%string.
Proof. reflexivity. Qed.

(** The epoch second embedded for a duration: the naive UTC reading plus
    the duration, read back as local time. *)
Lemma create_timestamp_timedelta (h : host) (td : timedelta) (style : string) :
  create_timestamp h (inr td) style
  = "<t:" +:+ str_int (Z.quot (clock h + td_microseconds td
                                - local_utcoffset h (clock h + td_microseconds td))
                               1000000)
    +:+ ":" +:+ style +:+ ">".
Proof. reflexivity. Qed.

(** On a host whose local zone is UTC, a duration of whole seconds lands
    on the current epoch second plus the duration. *)
Lemma create_timestamp_timedelta_utc (now s : Z) (style : string) :
  0 <= now -> 0 <= s ->
  let h := mkHost now (fun _ => 0) in
  create_timestamp h (inr (mkTimedelta (s * 1000000))) style
  = "<t:" +:+ str_int (current_epoch_second h + s) +:+ ":" +:+ style +:+ ">".
Proof.
  intros Hnow Hs h. rewrite create_timestamp_timedelta.
  unfold current_epoch_second. simpl. do 3 f_equal.
  rewrite Z.sub_0_r, !Z.quot_div_nonneg by lia.
  now rewrite Z.div_add by lia.
Qed.

(** C2: on a host one hour east of UTC, at epoch second 1700000000, a
    zero duration is rendered with epoch second 1699996400, not with the
    current one: [utcnow()] is naive and [timestamp()] reads it as local
    time. *)
Theorem create_timestamp_timedelta_local_zone :
  current_epoch_second host_utc_plus_1 = 1700000000
  /\ create_timestamp host_utc_plus_1 (inr (mkTimedelta 0)) default_style
     = "<t:1699996400:t>"%string
  /\ create_timestamp host_utc_plus_1 (inr (mkTimedelta 0)) default_style
     <> "<t:1700000000:t>"%string.
Proof. repeat split. discriminate. Qed.

(** *** More on [create_timestamp] *)

(** X6: on a host whose local zone stays [k] seconds east of UTC, a
    duration of [s] whole seconds is rendered with the current epoch
    second plus [s] minus [k], as long as the current instant, the naive
    sum and the instant it is read as are not before the epoch and lie in
    the range where the sum exists and the float is exact: the result is
    right only where the local zone is UTC. *)
Theorem create_timestamp_timedelta_offset (now s k : Z) (style : string) :
  0 <= now ->
  0 <= now + s * 1000000 ->
  0 <= now + (s - k) * 1000000 ->
  within_exact_range now ->
  within_exact_range (now + s * 1000000) ->
  within_exact_range (now + (s - k) * 1000000) ->
  let h := host_at_offset now k in
  create_timestamp h (inr (mkTimedelta (s * 1000000))) style
  = "<t:" +:+ str_int (current_epoch_second h + s - k) +:+ ":" +:+ style +:+ ">".
Proof.
  intros Hnow Hsum Hpos _ _ _ h. rewrite create_timestamp_timedelta.
  unfold current_epoch_second. simpl. do 3 f_equal.
  replace (now + s * 1000000 - k * 1000000) with (now + (s - k) * 1000000) by lia.
  rewrite !Z.quot_div_nonneg by lia.
  rewrite Z.div_add by lia. lia.
Qed.

Lemma create_timestamp_timedelta_offset_witness :
  create_timestamp (host_at_offset (1700000000 * 1000000) (-18000))
                   (inr (mkTimedelta (60 * 1000000))) "R"
  = "<t:1700018060:R>"%string.
Proof.
  apply (create_timestamp_timedelta_offset (1700000000 * 1000000) 60 (-18000) "R");
    unfold within_exact_range; lia.
Defined.

(** X7: for an instant less than 2^33 seconds from the epoch, where the
    float of [timestamp()] is exact to less than a microsecond, the
    embedded second is the instant truncated toward zero: it lies within
    one second of the instant and never beyond it, so every instant less
    than a second away from the epoch, before or after, is rendered as
    second 0. *)
Theorem int_timestamp_truncates (h : host) (dt : datetime) :
  within_exact_range (timestamp h dt) ->
  Z.abs (int_timestamp h dt * 1000000) <= Z.abs (timestamp h dt)
  /\ Z.abs (timestamp h dt - int_timestamp h dt * 1000000) < 1000000
  /\ (Z.abs (timestamp h dt) < 1000000 ->
      forall style, create_timestamp h (inl dt) style
                    = "<t:0:" +:+ style +:+ ">").
Proof.
  intros _. unfold int_timestamp. set (t := timestamp h dt).
  pose proof (Z.quot_rem' t 1000000) as Hqr.
  assert (Hrem : Z.abs (Z.rem t 1000000) < 1000000)
    by (pose proof (Z.rem_bound_abs t 1000000); lia).
  assert (Hsame : 0 <= Z.rem t 1000000 * t)
    by (pose proof (Z.rem_sign_mul t 1000000); lia).
  split; [| split].
  - nia.
  - replace (t - Z.quot t 1000000 * 1000000) with (Z.rem t 1000000) by lia.
    exact Hrem.
  - intros Hsmall style. unfold create_timestamp, int_timestamp.
    fold t.
    assert (Hq : Z.quot t 1000000 = 0) by (apply Z.quot_small_iff; lia).
    now rewrite Hq.
Qed.

Lemma int_timestamp_truncates_witness :
  within_exact_range (timestamp host_utc_plus_1 (Aware (-999999) 0))
  /\ create_timestamp host_utc_plus_1 (inl (Aware (-999999) 0)) "f"
     = "<t:0:f>"%string.
Proof.
  assert (Hrange : within_exact_range
                     (timestamp host_utc_plus_1 (Aware (-999999) 0)))
    by (unfold within_exact_range; simpl; lia).
  split; [exact Hrange |].
  destruct (int_timestamp_truncates host_utc_plus_1 (Aware (-999999) 0) Hrange)
    as (_ & _ & H).
  apply H. simpl. lia.
Defined.

(** *** [as_hook] *)

(** X8: the hook wraps the callback it is given; it is named by the
    argument of [as_hook] when that is a non-empty string, and by the
    callback's own [__name__] when the argument is [None] or the empty
    string. *)
Theorem as_hook_name (dunder_name : callback -> string) (name : option string)
        (cb : callback) :
  hook_callback (as_hook dunder_name name cb) = cb
  /\ hook_name (as_hook dunder_name name cb)
     = match name with
       | Some (String c s) => String c s
       | Some EmptyString | None => dunder_name cb
       end
  /\ as_hook dunder_name (Some ""%string) cb = as_hook dunder_name None cb.
Proof.
  unfold as_hook. split; [reflexivity |]. split; [| reflexivity].
  now destruct name as [[| c s] |].
Qed.

(** *** [Eval.add_returns] *)

(** From the last statement to the body: what holds of [on_last] on every
    statement of a body holds of [add_returns] on the body. *)
Lemma body_from_last (P : stmt -> Prop) (Q : list stmt -> Prop) :
  (forall s, P s -> Q [s]) ->
  (forall s0 s1 rest, Q (s1 :: rest) -> Q (s0 :: s1 :: rest)) ->
  forall body, body <> [] -> Forall P body -> Q body.
Proof.
  intros Hone Hcons body. induction body as [| s0 rest IH]; [congruence |].
  intros _ Hall. inversion Hall as [| ? ? Hs0 Hrest]; subst.
  destruct rest as [| s1 rest]; [now apply Hone |].
  apply Hcons. now apply IH.
Qed.

Lemma on_last_If t b o :
  on_last (If t b o)
  = match add_returns b with
    | (Some e, b') => (Some e, If t b' o)
    | (None, b') => let '(e, o') := add_returns o in (e, If t b' o')
    end.
Proof. reflexivity. Qed.

Lemma on_last_With i b :
  on_last (With i b) = let '(e, b') := add_returns b in (e, With i b').
Proof. reflexivity. Qed.

Lemma reachable_last_If t b o :
  reachable_last (If t b o) = reachable b && reachable o.
Proof. reflexivity. Qed.

Lemma reachable_last_With i b : reachable_last (With i b) = reachable b.
Proof. reflexivity. Qed.

Lemma returning_last_If t b o :
  returning_last (If t b o) = returning b && returning o.
Proof. reflexivity. Qed.

Lemma returning_last_With i b : returning_last (With i b) = returning b.
Proof. reflexivity. Qed.

Lemma add_returns_cons s0 s1 rest :
  add_returns (s0 :: s1 :: rest)
  = let '(e, rest') := add_returns (s1 :: rest) in (e, s0 :: rest').
Proof. reflexivity. Qed.

Lemma add_returns_one s :
  add_returns [s] = let '(e, s') := on_last s in (e, [s']).
Proof. reflexivity. Qed.

Lemma raises_iff_unreachable_body body :
  Forall raises_iff_unreachable_last body -> raises_iff_unreachable body.
Proof.
  destruct body as [| s0 rest]; [reflexivity |].
  apply (body_from_last raises_iff_unreachable_last raises_iff_unreachable);
    [| | discriminate].
  - intros s Hs. unfold raises_iff_unreachable. rewrite add_returns_one.
    cbn [reachable]. unfold raises_iff_unreachable_last in Hs.
    now destruct (on_last s).
  - intros s1 s2 rest' H. unfold raises_iff_unreachable in *.
    rewrite add_returns_cons. change (reachable (s1 :: s2 :: rest'))
      with (reachable (s2 :: rest')).
    now destruct (add_returns (s2 :: rest')).
Qed.

Lemma on_last_raises_iff_unreachable s : raises_iff_unreachable_last s.
Proof.
  induction s as [v | v | t b o Hb Ho | i b Hb | src] using stmt_nested_ind;
    try reflexivity.
  - apply raises_iff_unreachable_body in Hb, Ho.
    unfold raises_iff_unreachable_last, raises_iff_unreachable in *.
    rewrite on_last_If, reachable_last_If.
    destruct (add_returns b) as [[e |] b'], (reachable b); cbn in *;
      try discriminate; try assumption.
    destruct (add_returns o) as [eo o']. exact Ho.
  - apply raises_iff_unreachable_body in Hb.
    unfold raises_iff_unreachable_last, raises_iff_unreachable in *.
    rewrite on_last_With, reachable_last_With.
    now destruct (add_returns b).
Qed.

Lemma add_returns_raises_iff (body : list stmt) : raises_iff_unreachable body.
Proof.
  apply raises_iff_unreachable_body.
  apply Forall_forall. intros s _. apply on_last_raises_iff_unreachable.
Qed.

(** X9: [add_returns] raises [IndexError] exactly when a block it has to
    look into is empty, and raises nothing else: on an empty body, and on
    every body that ends in an [if] without [else], whatever comes before
    it. *)
Theorem add_returns_raises_on_empty_block (body : list stmt) :
  fst (add_returns body) = (if reachable body then None else Some IndexError)
  /\ fst (add_returns []) = Some IndexError
  /\ (forall test then_block,
         fst (add_returns (body ++ [If test then_block []])) = Some IndexError).
Proof.
  split; [apply add_returns_raises_iff |]. split; [reflexivity |].
  intros test then_block.
  rewrite (add_returns_raises_iff (body ++ [If test then_block []])).
  assert (Hun : reachable (body ++ [If test then_block []]) = false).
  { induction body as [| s0 rest IH].
    - cbn [app reachable]. rewrite reachable_last_If. apply andb_false_r.
    - destruct rest as [| s1 rest]; [exact IH |]. exact IH. }
  now rewrite Hun.
Qed.

Lemma add_returns_shape (body : list stmt) :
  length (snd (add_returns body)) = length body
  /\ removelast (snd (add_returns body)) = removelast body.
Proof.
  induction body as [| s0 rest IH]; [now split |].
  destruct rest as [| s1 rest].
  - rewrite add_returns_one. now destruct (on_last s0).
  - rewrite add_returns_cons. destruct IH as [Hlen Hpre].
    destruct (add_returns (s1 :: rest)) as [e rest'] eqn:Hrest. cbn [snd] in *.
    destruct rest' as [| s1' rest']; [discriminate Hlen |].
    split; [cbn in *; lia |].
    change (s0 :: removelast (s1' :: rest') = s0 :: removelast (s1 :: rest)).
    now rewrite Hpre.
Qed.

Lemma returning_body body :
  Forall (fun s => reachable_last s = true ->
                   returning_last (snd (on_last s)) = true) body ->
  reachable body = true -> returning (snd (add_returns body)) = true.
Proof.
  destruct body as [| s0 rest]; [discriminate |].
  apply (body_from_last
           (fun s => reachable_last s = true ->
                     returning_last (snd (on_last s)) = true)
           (fun b => reachable b = true ->
                     returning (snd (add_returns b)) = true));
    [| | discriminate].
  - intros s Hs Hreach. rewrite add_returns_one.
    specialize (Hs Hreach). now destruct (on_last s).
  - intros s1 s2 rest' IH Hreach. specialize (IH Hreach).
    rewrite add_returns_cons.
    destruct (add_returns_shape (s2 :: rest')) as [Hlen _].
    destruct (add_returns (s2 :: rest')) as [e r'].
    cbn [snd] in *. destruct r' as [| x r']; [discriminate Hlen |]. exact IH.
Qed.

Lemma on_last_returning s :
  reachable_last s = true -> returning_last (snd (on_last s)) = true.
Proof.
  induction s as [v | v | t b o Hb Ho | i b Hb | src] using stmt_nested_ind;
    try reflexivity.
  - rewrite on_last_If, reachable_last_If. intros [Hrb Hro]%andb_prop.
    apply returning_body in Hb; [| exact Hrb].
    apply returning_body in Ho; [| exact Hro].
    pose proof (add_returns_raises_iff b) as Hfb.
    unfold raises_iff_unreachable in Hfb. rewrite Hrb in Hfb.
    destruct (add_returns b) as [eb b']. cbn [fst snd] in Hfb, Hb. subst eb.
    destruct (add_returns o) as [eo o']. cbn [fst snd] in *.
    rewrite returning_last_If. now rewrite Hb, Ho.
  - rewrite on_last_With, reachable_last_With. intros Hrb.
    apply returning_body in Hb; [| exact Hrb].
    destruct (add_returns b) as [eb b']. cbn [fst snd] in *.
    now rewrite returning_last_With.
Qed.

Lemma add_returns_returning (body : list stmt) :
  reachable body = true -> returning (snd (add_returns body)) = true.
Proof.
  apply returning_body. apply Forall_forall. intros s _. apply on_last_returning.
Qed.

(** X10: [add_returns] changes a body at its end only: the body keeps its
    length and every statement but the last; when no exception is raised,
    the body it leaves ends in no bare expression, neither directly nor
    inside the branches of a final [if] or the block of a final [with]. *)
Theorem add_returns_rewrites_the_tail (body : list stmt) :
  reachable body = true ->
  fst (add_returns body) = None
  /\ length (snd (add_returns body)) = length body
  /\ removelast (snd (add_returns body)) = removelast body
  /\ returning (snd (add_returns body)) = true.
Proof.
  intros Hreach.
  pose proof (add_returns_raises_iff body) as Hfst.
  unfold raises_iff_unreachable in Hfst.
  rewrite Hreach in Hfst. split; [exact Hfst |].
  destruct (add_returns_shape body) as [Hlen Hpre].
  split; [exact Hlen |]. split; [exact Hpre |].
  now apply add_returns_returning.
Qed.

Lemma add_returns_rewrites_the_tail_witness :
  add_returns nested_body
  = (None,
     [ Other "x = 1";
       If "x" [With ["lock"] [Other "y = 2"; Return "y"]] [Return "0"] ])
  /\ returning (snd (add_returns nested_body)) = true.
Proof.
  split; [reflexivity |].
  now apply (add_returns_rewrites_the_tail nested_body).
Defined.

Lemma fixed_body body :
  Forall (fun s => returning_last s = true -> on_last s = (None, s)) body ->
  returning body = true -> add_returns body = (None, body).
Proof.
  destruct body as [| s0 rest]; [discriminate |].
  apply (body_from_last
           (fun s => returning_last s = true -> on_last s = (None, s))
           (fun b => returning b = true -> add_returns b = (None, b)));
    [| | discriminate].
  - intros s Hs Hret. rewrite add_returns_one. now rewrite (Hs Hret).
  - intros s1 s2 rest' IH Hret. rewrite add_returns_cons. now rewrite (IH Hret).
Qed.

Lemma on_last_fixed s : returning_last s = true -> on_last s = (None, s).
Proof.
  induction s as [v | v | t b o Hb Ho | i b Hb | src] using stmt_nested_ind;
    try reflexivity; try discriminate.
  - rewrite on_last_If, returning_last_If. intros [Hrb Hro]%andb_prop.
    apply fixed_body in Hb; [| exact Hrb].
    apply fixed_body in Ho; [| exact Hro].
    now rewrite Hb, Ho.
  - rewrite on_last_With, returning_last_With. intros Hrb.
    apply fixed_body in Hb; [| exact Hrb].
    now rewrite Hb.
Qed.

(** X11: [add_returns] is idempotent: a body it has rewritten without
    error is left as it is, again without error, by a second pass; so is
    every body that ends in no bare expression. *)
Theorem add_returns_idempotent (body : list stmt) :
  reachable body = true ->
  add_returns (snd (add_returns body)) = (None, snd (add_returns body))
  /\ (forall b, returning b = true -> add_returns b = (None, b)).
Proof.
  assert (Hfix : forall b, returning b = true -> add_returns b = (None, b)).
  { intros b. apply fixed_body. apply Forall_forall.
    intros s _. apply on_last_fixed. }
  intros Hreach. split; [| exact Hfix].
  apply Hfix. now apply add_returns_returning.
Qed.

Lemma add_returns_idempotent_witness :
  add_returns (snd (add_returns nested_body))
  = (None, snd (add_returns nested_body)).
Proof. now apply (add_returns_idempotent nested_body). Defined.

End UtilsFacts.

(** ** Text-input payloads *)
Module ModalsFacts.
Import Modals.

Section WithComponentType.

Variable ComponentType : Type.
Variable ComponentType_int : ComponentType -> Z.
Variable TEXT_INPUT : ComponentType.

Lemma to_payload_keys (self : TextInput ComponentType) :
  dom (to_payload ComponentType_int self) = payload_keys.
Proof.
  unfold to_payload, payload_keys. simpl.
  rewrite !dom_insert_L, dom_empty_L. reflexivity.
Qed.

(** C3: the payload of a text input has exactly the nine wire keys;
    [type] and [style] are integers; the default value travels under
    [value] and there is no key [default_value]; a text input built
    from a custom id and a label alone has style 1, is required and has
    no value. *)
Theorem to_payload_wire_format (self : TextInput ComponentType) (cid lab : string) :
  dom (to_payload ComponentType_int self) = payload_keys
  /\ to_payload ComponentType_int self !! "type"%string
     = Some (PyInt (ComponentType_int (type self)))
  /\ to_payload ComponentType_int self !! "custom_id"%string = Some (PyStr (custom_id self))
  /\ to_payload ComponentType_int self !! "label"%string = Some (PyStr (label self))
  /\ to_payload ComponentType_int self !! "style"%string
     = Some (PyInt (style_value (style self)))
  /\ to_payload ComponentType_int self !! "min_length"%string
     = Some (int_or_None (min_length self))
  /\ to_payload ComponentType_int self !! "max_length"%string
     = Some (int_or_None (max_length self))
  /\ to_payload ComponentType_int self !! "required"%string = Some (PyBool (required self))
  /\ to_payload ComponentType_int self !! "value"%string
     = Some (str_or_None (default_value self))
  /\ to_payload ComponentType_int self !! "placeholder"%string
     = Some (str_or_None (placeholder self))
  /\ to_payload ComponentType_int self !! "default_value"%string = None
  /\ to_payload ComponentType_int (TextInput_new TEXT_INPUT cid lab) !! "type"%string
     = Some (PyInt (ComponentType_int TEXT_INPUT))
  /\ to_payload ComponentType_int (TextInput_new TEXT_INPUT cid lab) !! "style"%string = Some (PyInt 1)
  /\ to_payload ComponentType_int (TextInput_new TEXT_INPUT cid lab) !! "required"%string
     = Some (PyBool true)
  /\ to_payload ComponentType_int (TextInput_new TEXT_INPUT cid lab) !! "value"%string = Some PyNone.
Proof.
  split; [apply to_payload_keys |].
  unfold to_payload. simpl. repeat split; by simplify_map_eq.
Qed.


Lemma int_or_None_inj (a b : option Z) : int_or_None a = int_or_None b -> a = b.
Proof. destruct a, b; simpl; congruence. Qed.

Lemma str_or_None_inj (a b : option string) :
  str_or_None a = str_or_None b -> a = b.
Proof. destruct a, b; simpl; congruence. Qed.

Lemma to_payload_lookups (self : TextInput ComponentType) :
  to_payload ComponentType_int self !! "type"%string
  = Some (PyInt (ComponentType_int (type self)))
  /\ to_payload ComponentType_int self !! "custom_id"%string
     = Some (PyStr (custom_id self))
  /\ to_payload ComponentType_int self !! "label"%string
     = Some (PyStr (label self))
  /\ to_payload ComponentType_int self !! "style"%string
     = Some (PyInt (style_value (style self)))
  /\ to_payload ComponentType_int self !! "min_length"%string
     = Some (int_or_None (min_length self))
  /\ to_payload ComponentType_int self !! "max_length"%string
     = Some (int_or_None (max_length self))
  /\ to_payload ComponentType_int self !! "required"%string
     = Some (PyBool (required self))
  /\ to_payload ComponentType_int self !! "value"%string
     = Some (str_or_None (default_value self))
  /\ to_payload ComponentType_int self !! "placeholder"%string
     = Some (str_or_None (placeholder self)).
Proof. unfold to_payload. simpl. repeat split; by simplify_map_eq. Qed.

(** X12: the payload loses nothing: when distinct component types have
    distinct codes, two text inputs with the same payload have the same
    fields. *)
Theorem to_payload_injective (a b : TextInput ComponentType) :
  (forall x y, ComponentType_int x = ComponentType_int y -> x = y) ->
  to_payload ComponentType_int a = to_payload ComponentType_int b ->
  a = b.
Proof.
  intros Hinj Heq.
  destruct (to_payload_lookups a)
    as (A1 & A2 & A3 & A4 & A5 & A6 & A7 & A8 & A9).
  destruct (to_payload_lookups b)
    as (B1 & B2 & B3 & B4 & B5 & B6 & B7 & B8 & B9).
  rewrite Heq in A1, A2, A3, A4, A5, A6, A7, A8, A9.
  destruct a as [a1 a2 a3 [a4] a5 a6 a7 a8 a9], b as [b1 b2 b3 [b4] b5 b6 b7 b8 b9].
  cbn in *.
  assert (a1 = b1) by (apply Hinj; congruence).
  assert (a5 = b5) by (apply int_or_None_inj; congruence).
  assert (a6 = b6) by (apply int_or_None_inj; congruence).
  assert (a8 = b8) by (apply str_or_None_inj; congruence).
  assert (a9 = b9) by (apply str_or_None_inj; congruence).
  congruence.
Qed.

End WithComponentType.

Lemma to_payload_injective_witness :
  to_payload (fun code : Z => code) an_input
  = to_payload (fun code : Z => code) an_input
  /\ an_input = an_input.
Proof.
  split; [reflexivity |].
  apply (to_payload_injective Z (fun code : Z => code) an_input an_input).
  - intros x y H. exact H.
  - reflexivity.
Defined.

(** X13: [add_item] appends to the modal's list, in call order, and
    changes no other list object. *)
Theorem add_item_appends (ComponentType : Type)
        (a b : TextInput ComponentType) (self : Modal)
        (store : gmap nat (list (TextInput ComponentType)))
        (l : list (TextInput ComponentType)) :
  store !! text_inputs self = Some l ->
  items self (add_item b self (add_item a self store)) = l ++ [a; b]
  /\ length (items self (add_item b self (add_item a self store)))
     = S (S (length (items self store)))
  /\ forall k, k <> text_inputs self ->
               add_item b self (add_item a self store) !! k = store !! k.
Proof.
  intros Hl. unfold items, add_item.
  rewrite !lookup_alter_eq, Hl. cbn.
  split; [now rewrite <- app_assoc |]. split.
  - rewrite !length_app. simpl. lia.
  - intros k Hk. now rewrite !lookup_alter_ne by congruence.
Qed.

Lemma add_item_appends_witness :
  items (Modal_new "Form" "form" (Some 1%nat))
        (add_item another_input (Modal_new "Form" "form" (Some 1%nat))
           (add_item an_input (Modal_new "Form" "form" (Some 1%nat))
                     {[ 1%nat := [] ]}))
  = [an_input; another_input].
Proof.
  apply (add_item_appends Z an_input another_input
           (Modal_new "Form" "form" (Some 1%nat)) {[ 1%nat := [] ]} []).
  reflexivity.
Defined.

(** X14: modals built without a [text_inputs] argument share one list:
    an item added through one of them shows in every other one, whatever
    their titles and custom ids; a modal built with a list of its own is
    not affected. *)
Theorem default_text_inputs_shared (ComponentType : Type)
        (x : TextInput ComponentType) (t1 c1 t2 c2 t3 c3 : string) (own : nat)
        (store : gmap nat (list (TextInput ComponentType)))
        (l : list (TextInput ComponentType)) :
  store !! default_text_inputs = Some l ->
  own <> default_text_inputs ->
  let m1 := Modal_new t1 c1 None in
  let m2 := Modal_new t2 c2 None in
  let m3 := Modal_new t3 c3 (Some own) in
  items m2 (add_item x m1 store) = items m2 store ++ [x]
  /\ items m3 (add_item x m1 store) = items m3 store.
Proof.
  intros Hl Hown m1 m2 m3. unfold items, add_item. cbn.
  rewrite lookup_alter_eq, Hl. cbn. split; [reflexivity |].
  now rewrite lookup_alter_ne by congruence.
Qed.

Lemma default_text_inputs_shared_witness :
  items (Modal_new "Second" "b" None)
        (add_item an_input (Modal_new "First" "a" None)
                  {[ default_text_inputs := [] ]})
  = [an_input].
Proof.
  destruct (default_text_inputs_shared Z an_input "First" "a" "Second" "b"
              "Third" "c" 1%nat {[ default_text_inputs := [] ]} [])
    as [H _]; [reflexivity | discriminate |].
  exact H.
Defined.

End ModalsFacts.

(** ** Clients *)
Module ClientsFacts.
Import Clients.

(** *** Registration of slash commands and groups *)

Lemma add_slash_command_free self (command : SlashCommand) (p : process) :
  slash_commands p !! command_name command = None ->
  add_slash_command self command p
  = (inr tt,
     mkProcess (<[command_name command := command]> (slash_commands p))
               (slash_groups p) (clients p)
               (records p ++ [(DEBUG, "Adding slash command "
                                       +:+ command_name command +:+ " to bot.")])).
Proof.
  intros Hfree. unfold add_slash_command, bind, gets. simpl.
  rewrite bool_decide_eq_false_2 by (now apply not_elem_of_dom).
  reflexivity.
Qed.

Lemma add_slash_command_taken self (command : SlashCommand) (p : process) :
  is_Some (slash_commands p !! command_name command) ->
  add_slash_command self command p
  = (inl (CommandAlreadyExists ("A slash command named "
                                 +:+ command_name command +:+ " already exists.")),
     p).
Proof.
  intros Htaken. unfold add_slash_command, bind, gets. simpl.
  rewrite bool_decide_eq_true_2 by (now apply elem_of_dom).
  reflexivity.
Qed.

Lemma add_slash_group_free self (group : SlashGroup) (p : process) :
  slash_groups p !! group_name group = None ->
  add_slash_group self group p
  = (inr tt,
     mkProcess (slash_commands p)
               (<[group_name group := group]> (slash_groups p)) (clients p)
               (records p ++ [(DEBUG, "Adding slash group "
                                       +:+ group_name group +:+ " to bot.")])).
Proof.
  intros Hfree. unfold add_slash_group, bind, gets. simpl.
  rewrite bool_decide_eq_false_2 by (now apply not_elem_of_dom).
  reflexivity.
Qed.

Lemma add_slash_group_taken self (group : SlashGroup) (p : process) :
  is_Some (slash_groups p !! group_name group) ->
  add_slash_group self group p
  = (inl (CommandAlreadyExists ("A slash command named "
                                 +:+ group_name group +:+ " already exists.")),
     p).
Proof.
  intros Htaken. unfold add_slash_group, bind, gets. simpl.
  rewrite bool_decide_eq_true_2 by (now apply elem_of_dom).
  reflexivity.
Qed.

(** C6: two commands (two groups) with different names, neither
    registered yet, are registered one after the other without error and
    both are then found in the registry under their names; registering
    any command (group) under either name again raises the
    duplicate-registration error at once. *)
Theorem registration_by_name (self : nat) (p : process)
        (c1 c2 : SlashCommand) (g1 g2 : SlashGroup) :
  command_name c1 ≠ command_name c2 ->
  slash_commands p !! command_name c1 = None ->
  slash_commands p !! command_name c2 = None ->
  group_name g1 ≠ group_name g2 ->
  slash_groups p !! group_name g1 = None ->
  slash_groups p !! group_name g2 = None ->
  (exists p',
      (add_slash_command self c1 >> add_slash_command self c2) p = (inr tt, p')
      /\ slash_commands p' !! command_name c1 = Some c1
      /\ slash_commands p' !! command_name c2 = Some c2
      /\ forall c, command_name c = command_name c1
                   \/ command_name c = command_name c2 ->
                   add_slash_command self c p'
                   = (inl (CommandAlreadyExists
                             ("A slash command named " +:+ command_name c
                              +:+ " already exists.")), p'))
  /\ (exists p',
      (add_slash_group self g1 >> add_slash_group self g2) p = (inr tt, p')
      /\ slash_groups p' !! group_name g1 = Some g1
      /\ slash_groups p' !! group_name g2 = Some g2
      /\ forall g, group_name g = group_name g1
                   \/ group_name g = group_name g2 ->
                   add_slash_group self g p'
                   = (inl (CommandAlreadyExists
                             ("A slash command named " +:+ group_name g
                              +:+ " already exists.")), p')).
Proof.
  intros Hc Hc1 Hc2 Hg Hg1 Hg2. split.
  - eexists. unfold bind. rewrite add_slash_command_free by exact Hc1.
    rewrite add_slash_command_free
      by (simpl; now rewrite lookup_insert_ne).
    split; [reflexivity |]. simpl.
    assert (H1 : <[command_name c2 := c2]>
                   (<[command_name c1 := c1]> (slash_commands p))
                 !! command_name c1 = Some c1)
      by (rewrite lookup_insert_ne by congruence; apply lookup_insert_eq).
    assert (H2 : <[command_name c2 := c2]>
                   (<[command_name c1 := c1]> (slash_commands p))
                 !! command_name c2 = Some c2)
      by apply lookup_insert_eq.
    split; [exact H1 |]. split; [exact H2 |].
    intros c [Hn | Hn]; apply add_slash_command_taken; simpl; rewrite Hn;
      [rewrite H1 | rewrite H2]; eauto.
  - eexists. unfold bind. rewrite add_slash_group_free by exact Hg1.
    rewrite add_slash_group_free
      by (simpl; now rewrite lookup_insert_ne).
    split; [reflexivity |]. simpl.
    assert (H1 : <[group_name g2 := g2]>
                   (<[group_name g1 := g1]> (slash_groups p))
                 !! group_name g1 = Some g1)
      by (rewrite lookup_insert_ne by congruence; apply lookup_insert_eq).
    assert (H2 : <[group_name g2 := g2]>
                   (<[group_name g1 := g1]> (slash_groups p))
                 !! group_name g2 = Some g2)
      by apply lookup_insert_eq.
    split; [exact H1 |]. split; [exact H2 |].
    intros g [Hn | Hn]; apply add_slash_group_taken; simpl; rewrite Hn;
      [rewrite H1 | rewrite H2]; eauto.
Qed.

Lemma registration_by_name_witness :
  exists p',
    (add_slash_command 0 ping >> add_slash_command 0 echo) fresh_process
    = (inr tt, p')
    /\ slash_commands p' !! "ping"%string = Some ping
    /\ slash_commands p' !! "echo"%string = Some echo.
Proof.
  destruct (registration_by_name 0 fresh_process ping echo admin tools)
    as [(p' & Hrun & Hping & Hecho & _) _];
    [discriminate | reflexivity | reflexivity
     | discriminate | reflexivity | reflexivity |].
  exists p'. repeat split; assumption.
Defined.

(** C10: when [add_slash_command] or [add_slash_group] raises, the
    process is left exactly as it was before the call: both registries
    and the log records are unchanged. *)
Theorem registration_atomic_on_failure (self : nat) (p p' : process)
        (command : SlashCommand) (group : SlashGroup) (e : Exception) :
  add_slash_command self command p = (inl e, p')
  \/ add_slash_group self group p = (inl e, p') ->
  p' = p
  /\ slash_commands p' = slash_commands p
  /\ slash_groups p' = slash_groups p.
Proof.
  assert (Hsame : p' = p -> p' = p /\ slash_commands p' = slash_commands p
                            /\ slash_groups p' = slash_groups p)
    by (intros ->; repeat split).
  intros [H | H]; apply Hsame.
  - unfold add_slash_command, bind, gets in H. simpl in H.
    case_bool_decide; [| discriminate H]. now inversion H.
  - unfold add_slash_group, bind, gets in H. simpl in H.
    case_bool_decide; [| discriminate H]. now inversion H.
Qed.

Lemma registration_atomic_on_failure_witness :
  add_slash_command 0 ping ping_registered
  = (inl (CommandAlreadyExists "A slash command named ping already exists."),
     ping_registered)
  /\ (ping_registered = ping_registered
      /\ slash_commands ping_registered = slash_commands ping_registered
      /\ slash_groups ping_registered = slash_groups ping_registered).
Proof.
  assert (H : add_slash_command 0 ping ping_registered
              = (inl (CommandAlreadyExists
                        "A slash command named ping already exists."),
                 ping_registered))
    by (vm_compute; reflexivity).
  split; [exact H |].
  exact (registration_atomic_on_failure 0 ping_registered ping_registered
           ping admin _ (or_introl H)).
Defined.

(** *** [set_prefix] *)

(** A string, a list, a tuple or a set: the class of the argument is
    recorded on the client and the client itself is returned. *)
Lemma set_prefix_recorded (self : nat) (p : process) (s : string)
      (l : list string) :
  set_prefix self (Pstr s) p
  = (inr self, on_client self (set_prefix_type (Gtype T_str)) p)
  /\ set_prefix self (Plist l) p
     = (inr self, on_client self (set_prefix_type (Gtype T_list)) p)
  /\ set_prefix self (Ptuple l) p
     = (inr self, on_client self (set_prefix_type (Gtype T_tuple)) p)
  /\ set_prefix self (Pset l) p
     = (inr self, on_client self (set_prefix_type (Gtype T_set)) p).
Proof. repeat split. Qed.

Lemma prefix_type_recorded (self : nat) (p : process) (c : client) (t : global) :
  clients p !! self = Some c ->
  prefix_type <$> clients (on_client self (set_prefix_type t) p) !! self
  = Some (Some t).
Proof. intros Hc. simpl. now rewrite lookup_alter_eq, Hc. Qed.

(** C5: called with a callable, [set_prefix] records nothing and returns
    nothing: the third test names [function], which is bound neither in
    the module nor among the built-ins, and the call ends in a
    [NameError]; so does a call with any object that is not a string, a
    list, a tuple or a set. *)
Theorem set_prefix_callable_NameError (self : nat) (p : process)
        (f : callback) (o : pyobj) :
  set_prefix self (Pfunction f) p = (inl (NameError "function"), p)
  /\ set_prefix self (Pother o) p = (inl (NameError "function"), p).
Proof. split; reflexivity. Qed.

(** *** Failures of [start] *)

Lemma start_outcome (b : backend) (self : nat) (activity status : option pyobj)
      (p : process) (c : client) :
  clients p !! self = Some c ->
  session_closed c = false ->
  match first_failure b with
  | Some (stg, e) =>
      if guarded stg && is_Unauthorized e
      then match session_close b with
           | Returns _ =>
               fst (start b self activity status p) = inl e
               /\ closed_session_of self (snd (start b self activity status p))
                  = true
           | Raises e' =>
               fst (start b self activity status p) = inl e'
               /\ closed_session_of self (snd (start b self activity status p))
                  = false
           end
      else fst (start b self activity status p) = inl e
           /\ closed_session_of self (snd (start b self activity status p))
              = false
  | None =>
      fst (start b self activity status p) = inr tt
      /\ closed_session_of self (snd (start b self activity status p)) = false
  end.
Proof.
  intros Hc Hopen.
  unfold first_failure, start, try_except, close_session, perform,
    _listeners_setups, log, bind, ret, raise, modify.
  destruct (dispatch b STARTING) as [[] | e1]; simpl;
    [destruct (_get_socket_ready b) as [[] | e2]; simpl;
     [destruct (fetch_client_user b) as [u | e3]; simpl;
      [destruct (dispatch b STARTED) as [[] | e4]; simpl;
       [destruct (listen_gateway b) as [[] | e5]; simpl | ] | ] | ] | ];
    repeat match goal with
           | |- context [is_Unauthorized ?e] =>
               destruct (is_Unauthorized e); simpl
           end;
    try (destruct (session_close b) as [[] | e6]; simpl);
    (split; [reflexivity |]);
    unfold closed_session_of; simpl;
    rewrite ?lookup_alter_eq, Hc; simpl; first [exact Hopen | reflexivity].
Qed.

(** C7, as stated, fails: the fetch of the bot's own user succeeds, the
    failure is raised by the listen loop, and yet the session is
    closed, because the listen loop stands in the same [try] block. *)
Lemma start_other_failure_counterexample :
  fetch_client_user gateway_refuses = Returns (mkUser 42 "wyvern")
  /\ first_failure gateway_refuses
     = Some (AtListen, Unauthorized "401: Unauthorized")
  /\ closed_session_of 0 fresh_process = false
  /\ fst (start gateway_refuses 0 None None fresh_process)
     = inl (Unauthorized "401: Unauthorized")
  /\ closed_session_of 0 (snd (start gateway_refuses 0 None None fresh_process))
     = true
  /\ ~ (forall (b : backend) (stg : stage) (e : Exception),
           first_failure b = Some (stg, e) ->
           ~ (stg = AtFetchUser /\ is_Unauthorized e = true) ->
           fst (start b 0 None None fresh_process) = inl e
           /\ closed_session_of 0 (snd (start b 0 None None fresh_process))
              = false).
Proof.
  repeat split; try reflexivity.
  intros Hclaim.
  destruct (Hclaim gateway_refuses AtListen (Unauthorized "401: Unauthorized"))
    as [_ Hopen]; [reflexivity | intros [Hstg _]; discriminate Hstg |].
  vm_compute in Hopen. discriminate Hopen.
Qed.

(** C7, amended: when a step of [start] fails with an authorization
    error inside the [try] block (the fetch of the bot's own user, the
    dispatch of [STARTED], the listen loop), the close of the session is
    awaited: when it returns, the session is closed and the caller gets
    the authorization error; when the close itself raises, the caller gets
    the exception of the close and the session stays unclosed.  A failure
    of another class, or one raised before the fetch, reaches the caller
    as it is and leaves the session unclosed. *)
Theorem start_failure_cleanup (b : backend) (self : nat)
        (activity status : option pyobj) (p : process) (c : client)
        (stg : stage) (e : Exception) :
  clients p !! self = Some c ->
  session_closed c = false ->
  first_failure b = Some (stg, e) ->
  let result := fst (start b self activity status p) in
  let closed := closed_session_of self (snd (start b self activity status p)) in
  (if guarded stg && is_Unauthorized e
   then match session_close b with
        | Returns _ => result = inl e /\ closed = true
        | Raises e' => result = inl e' /\ closed = false
        end
   else result = inl e /\ closed = false)
  /\ (stg = AtFetchUser -> is_Unauthorized e = true ->
      session_close b = Returns tt ->
      result = inl e /\ closed = true)
  /\ (is_Unauthorized e = false -> result = inl e /\ closed = false)
  /\ (guarded stg = false -> result = inl e /\ closed = false).
Proof.
  intros Hc Hopen Hfail result closed.
  pose proof (start_outcome b self activity status p c Hc Hopen) as H.
  rewrite Hfail in H. fold result closed in H.
  split; [exact H |]. split; [| split].
  - intros -> He Hclose. cbn [guarded andb] in H.
    now rewrite He, Hclose in H.
  - intros He. rewrite He, andb_false_r in H. exact H.
  - intros Hg. now rewrite Hg in H.
Qed.

Lemma start_failure_cleanup_witness :
  first_failure token_rejected
  = Some (AtFetchUser, Unauthorized "401: Unauthorized")
  /\ fst (start token_rejected 0 None None fresh_process)
     = inl (Unauthorized "401: Unauthorized")
  /\ closed_session_of 0 (snd (start token_rejected 0 None None fresh_process))
     = true.
Proof.
  split; [reflexivity |].
  destruct (start_failure_cleanup token_rejected 0 None None fresh_process
              new_client AtFetchUser (Unauthorized "401: Unauthorized"))
    as (_ & Hfetch & _);
    [reflexivity | reflexivity | reflexivity |].
  apply Hfetch; reflexivity.
Defined.

(** *** The registries *)

(** X15: the registry of slash commands belongs to the class, not to a
    client: a name registered through one client is taken for every other
    client of the process. *)
Theorem registry_shared_by_clients (self other : nat) (p : process)
        (c c' : SlashCommand) :
  slash_commands p !! command_name c = None ->
  command_name c' = command_name c ->
  exists p1,
    add_slash_command self c p = (inr tt, p1)
    /\ add_slash_command other c' p1
       = (inl (CommandAlreadyExists
                 ("A slash command named " +:+ command_name c'
                  +:+ " already exists.")), p1)
    /\ clients p1 = clients p.
Proof.
  intros Hfree Hname. eexists. split; [now apply add_slash_command_free |].
  split; [| reflexivity].
  apply add_slash_command_taken. cbn. rewrite Hname, lookup_insert_eq. eauto.
Qed.

Lemma registry_shared_by_clients_witness :
  exists p1,
    add_slash_command 0 ping two_clients = (inr tt, p1)
    /\ add_slash_command 1 (mkSlashCommand "ping" "Another one.") p1
       = (inl (CommandAlreadyExists "A slash command named ping already exists."),
          p1).
Proof.
  destruct (registry_shared_by_clients 0 1 two_clients ping
              (mkSlashCommand "ping" "Another one."))
    as (p1 & H1 & H2 & _); [reflexivity | reflexivity |].
  exists p1. split; [exact H1 | exact H2].
Defined.

(** X16: commands and groups are kept apart: a name taken by a group is
    still free for a command, and the other way round; registering a
    command leaves the groups as they are, and registering a group leaves
    the commands as they are. *)
Theorem commands_and_groups_apart (self : nat) (p : process)
        (c : SlashCommand) (g : SlashGroup) :
  slash_commands p !! command_name c = None ->
  slash_groups p !! group_name g = None ->
  group_name g = command_name c ->
  exists p1 p2,
    add_slash_group self g p = (inr tt, p1)
    /\ add_slash_command self c p1 = (inr tt, p2)
    /\ slash_commands p1 = slash_commands p
    /\ slash_groups p2 = slash_groups p1
    /\ slash_commands p2 !! command_name c = Some c
    /\ slash_groups p2 !! command_name c = Some g.
Proof.
  intros Hc Hg Hname. eexists. eexists.
  split; [now apply add_slash_group_free |].
  split; [now apply add_slash_command_free |].
  cbn. split; [reflexivity |]. split; [reflexivity |].
  split; [apply lookup_insert_eq |].
  rewrite <- Hname. apply lookup_insert_eq.
Qed.

Lemma commands_and_groups_apart_witness :
  exists p1 p2,
    add_slash_group 0 (mkSlashGroup "ping" "A group.") fresh_process = (inr tt, p1)
    /\ add_slash_command 0 ping p1 = (inr tt, p2).
Proof.
  destruct (commands_and_groups_apart 0 fresh_process ping
              (mkSlashGroup "ping" "A group."))
    as (p1 & p2 & H1 & H2 & _); [reflexivity | reflexivity | reflexivity |].
  exists p1, p2. split; [exact H1 | exact H2].
Defined.

(** *** More on [set_prefix] *)

Lemma set_prefix_typed (self : nat) (a : prefix_arg) (t : pytype) (p : process) :
  type_of a = Some t ->
  set_prefix self a p = (inr self, on_client self (set_prefix_type (Gtype t)) p).
Proof. destruct a; intros Ha; inversion Ha; reflexivity. Qed.

(** X17: [set_prefix] records the class of its argument and nothing of
    its value: two arguments of the same class leave the same process;
    of two calls the later one decides the recorded class; and a call that
    fails leaves the class recorded before. *)
Theorem set_prefix_records_class_only (self : nat) (p : process) (c : client)
        (a a' b : prefix_arg) (ta tb : pytype) (f : callback) :
  clients p !! self = Some c ->
  type_of a = Some ta -> type_of a' = Some ta -> type_of b = Some tb ->
  set_prefix self a' p = set_prefix self a p
  /\ prefix_type <$> clients (snd ((set_prefix self a >> set_prefix self b) p)) !! self
     = Some (Some (Gtype tb))
  /\ (set_prefix self a >> set_prefix self (Pfunction f)) p
     = (inl (NameError "function"), snd (set_prefix self a p))
  /\ prefix_type <$> clients (snd (set_prefix self a p)) !! self
     = Some (Some (Gtype ta)).
Proof.
  intros Hc Ha Ha' Hb.
  rewrite (set_prefix_typed self a ta p Ha), (set_prefix_typed self a' ta p Ha').
  split; [reflexivity |]. unfold bind.
  rewrite (set_prefix_typed self a ta p Ha). cbn [fst snd].
  rewrite (set_prefix_typed self b tb _ Hb). cbn [fst snd].
  split; [| split; [reflexivity |]].
  - unfold on_client. cbn [clients]. now rewrite !lookup_alter_eq, Hc.
  - unfold on_client. cbn [clients]. now rewrite lookup_alter_eq, Hc.
Qed.

Lemma set_prefix_records_class_only_witness :
  set_prefix 0 (Pstr "?") fresh_process = set_prefix 0 (Pstr "!") fresh_process
  /\ prefix_type <$> clients (snd ((set_prefix 0 (Pstr "!")
                                    >> set_prefix 0 (Plist ["!"; "?"]%string))
                                     fresh_process)) !! 0%nat
     = Some (Some (Gtype T_list)).
Proof.
  destruct (set_prefix_records_class_only 0 fresh_process new_client
              (Pstr "!") (Pstr "?") (Plist ["!"; "?"]%string) T_str T_list 0%nat)
    as (H1 & H2 & _); try reflexivity.
  split; [exact H1 | exact H2].
Defined.

(** *** More on [start] *)

Ltac start_unfold :=
  unfold start, try_except, close_session, perform, _listeners_setups, log,
    bind, ret, raise, modify.

(** X18: when no step fails, [start] returns normally; it has then made
    its five calls in the order STARTING dispatch, socket, fetch, STARTED
    dispatch, listen loop, has recorded the requested activity and status
    and the identifier of the fetched user, has left the session open, and
    has logged its three messages. *)
Theorem start_success (b : backend) (self : nat) (activity status : option pyobj)
        (p : process) (c : client) (u : User) :
  clients p !! self = Some c ->
  first_failure b = None ->
  fetch_client_user b = Returns u ->
  fst (start b self activity status p) = inr tt
  /\ clients (snd (start b self activity status p)) !! self
     = Some (mkClient (user_id u) (prefix_type c) activity status
                      (session_closed c)
                      (calls c ++ map stage_call (stages_until AtListen)))
  /\ records (snd (start b self activity status p))
     = records p
       ++ [ (INFO, "Logging in with bot token.");
            (INFO, "Logged in to the gateway with bot token.");
            (INFO, "(Session info) User ID: " +:+ str_int (user_id u)
                   +:+ ", Username: " +:+ username u) ]%string.
Proof.
  intros Hc Hnone Hfetch. unfold first_failure in Hnone. revert Hnone.
  start_unfold. rewrite Hfetch.
  destruct (dispatch b STARTING) as [[] | e1]; [| discriminate].
  destruct (_get_socket_ready b) as [[] | e2]; [| discriminate].
  destruct (dispatch b STARTED) as [[] | e4]; [| discriminate].
  destruct (listen_gateway b) as [[] | e5]; [| discriminate].
  intros _. simpl. split; [reflexivity |]. split.
  - rewrite !lookup_alter_eq, Hc. simpl. unfold record_call. simpl.
    now rewrite <- !app_assoc.
  - now rewrite <- !app_assoc.
Qed.

Lemma start_success_witness :
  fst (start healthy 0 (Some (PyStr "playing")) None fresh_process) = inr tt
  /\ _client_id <$> clients (snd (start healthy 0 (Some (PyStr "playing")) None
                                       fresh_process)) !! 0%nat
     = Some 42.
Proof.
  destruct (start_success healthy 0 (Some (PyStr "playing")) None fresh_process
              new_client (mkUser 42 "wyvern"))
    as (H1 & H2 & _); [reflexivity | reflexivity | reflexivity |].
  split; [exact H1 |]. now rewrite H2.
Defined.

(** X19: when the cleanup itself fails, that is, when a step of the [try]
    block raises an authorization error and closing the session raises in
    turn, the caller gets the exception of the close, not the
    authorization error, and the session is not closed. *)
Theorem start_close_failure (b : backend) (self : nat)
        (activity status : option pyobj) (p : process) (c : client)
        (stg : stage) (e e' : Exception) :
  clients p !! self = Some c ->
  first_failure b = Some (stg, e) ->
  guarded stg = true ->
  is_Unauthorized e = true ->
  session_close b = Raises e' ->
  fst (start b self activity status p) = inl e'
  /\ closed_session_of self (snd (start b self activity status p))
     = session_closed c
  /\ calls <$> clients (snd (start b self activity status p)) !! self
     = Some (calls c ++ map stage_call (stages_until stg) ++ [SessionClose]).
Proof.
  intros Hc Hfail Hguard Hunauth Hclose. unfold first_failure in Hfail.
  revert Hfail. start_unfold. rewrite Hclose.
  destruct (dispatch b STARTING) as [[] | e1];
    [| intros [= <- <-]; discriminate Hguard].
  destruct (_get_socket_ready b) as [[] | e2];
    [| intros [= <- <-]; discriminate Hguard].
  destruct (fetch_client_user b) as [u | e3];
    [destruct (dispatch b STARTED) as [[] | e4];
     [destruct (listen_gateway b) as [[] | e5]; [discriminate |] |] |];
    intros [= <- <-]; simpl; rewrite Hunauth; simpl;
    (split; [reflexivity |]);
    unfold closed_session_of; simpl; rewrite !lookup_alter_eq, Hc; simpl;
    (split; [reflexivity |]); now rewrite <- !app_assoc.
Qed.

Lemma start_close_failure_witness :
  fst (start close_fails 0 None None fresh_process)
  = inl (OtherError "ClientError" "session is broken")
  /\ closed_session_of 0 (snd (start close_fails 0 None None fresh_process))
     = false.
Proof.
  destruct (start_close_failure close_fails 0 None None fresh_process new_client
              AtFetchUser (Unauthorized "401: Unauthorized")
              (OtherError "ClientError" "session is broken"))
    as (H1 & H2 & _); try reflexivity.
  split; [exact H1 | exact H2].
Defined.

(** X21: when a step of [start] fails, the calls made are exactly the
    steps up to the failing one, in order, followed by the close of the
    session when it is due; the identifier of the client is that of the
    fetched user once the fetch has succeeded and is unchanged before; the
    requested activity and status are recorded as soon as the STARTING
    dispatch has returned, before the socket is awaited. *)
Theorem start_failure_trace (b : backend) (self : nat)
        (activity status : option pyobj) (p : process) (c : client)
        (stg : stage) (e : Exception) :
  clients p !! self = Some c ->
  first_failure b = Some (stg, e) ->
  session_close b = Returns tt ->
  exists c',
    clients (snd (start b self activity status p)) !! self = Some c'
    /\ calls c'
       = calls c ++ map stage_call (stages_until stg)
         ++ (if guarded stg && is_Unauthorized e then [SessionClose] else [])
    /\ _client_id c'
       = match stg, fetch_client_user b with
         | (AtDispatchStarted | AtListen), Returns u => user_id u
         | _, _ => _client_id c
         end
    /\ (start_activity c', start_status c')
       = match stg with
         | AtDispatchStarting => (start_activity c, start_status c)
         | _ => (activity, status)
         end.
Proof.
  intros Hc Hfail Hclose. unfold first_failure in Hfail. revert Hfail.
  start_unfold. rewrite Hclose.
  destruct (dispatch b STARTING) as [[] | e1];
    [destruct (_get_socket_ready b) as [[] | e2];
     [destruct (fetch_client_user b) as [u | e3];
      [destruct (dispatch b STARTED) as [[] | e4];
       [destruct (listen_gateway b) as [[] | e5]; [discriminate |] |] |] |] |];
    intros [= <- <-]; simpl;
    repeat match goal with
           | |- context [is_Unauthorized ?e] =>
               destruct (is_Unauthorized e); simpl
           end;
    rewrite !lookup_alter_eq, Hc; simpl;
    eexists; (split; [reflexivity |]); simpl;
    rewrite <- ?app_assoc, ?app_nil_r; repeat split; reflexivity.
Qed.

Lemma start_failure_trace_witness :
  exists c',
    clients (snd (start gateway_refuses 0 None None fresh_process)) !! 0%nat
    = Some c'
    /\ calls c'
       = [Dispatch STARTING; GetSocketReady; FetchClientUser; Dispatch STARTED;
          ListenGateway; SessionClose]
    /\ _client_id c' = 42.
Proof.
  destruct (start_failure_trace gateway_refuses 0 None None fresh_process
              new_client AtListen (Unauthorized "401: Unauthorized"))
    as (c' & H1 & H2 & H3 & _); try reflexivity.
  exists c'. split; [exact H1 |]. split; [exact H2 | exact H3].
Defined.

(** *** [include] *)

(** X22: [include] registers a slash command as [add_slash_command] does
    and hands the same object back; when the name is taken it raises the
    duplicate-registration error, returns nothing and changes nothing; an
    object that is neither a listener nor a command is handed back with
    nothing registered. *)
Theorem include_registers_commands (EventListener : Type)
        (add_listener : nat -> EventListener -> M process unit)
        (self : nat) (p : process) (c : SlashCommand) (o : pyobj) :
  (slash_commands p !! command_name c = None ->
   exists p', include add_listener self (IsCommand c) p = (inr (IsCommand c), p')
              /\ add_slash_command self c p = (inr tt, p')
              /\ slash_commands p' !! command_name c = Some c)
  /\ (is_Some (slash_commands p !! command_name c) ->
      include add_listener self (IsCommand c) p
      = (inl (CommandAlreadyExists ("A slash command named " +:+ command_name c
                                    +:+ " already exists.")), p))
  /\ include add_listener self (IsOther o) p = (inr (IsOther o), p).
Proof.
  split; [| split; [| reflexivity]].
  - intros Hfree. eexists. unfold include, bind.
    rewrite add_slash_command_free by exact Hfree.
    split; [reflexivity |]. split; [reflexivity |]. apply lookup_insert_eq.
  - intros Htaken. unfold include, bind.
    now rewrite add_slash_command_taken by exact Htaken.
Qed.

End ClientsFacts.
